(** * tgo: event aggregation and presentation for [go test -json]

    A shallow embedding of [tgo.go]: the event model, the unit store
    ([TestStorage]), status derivation, compaction, the summary renderers and
    the scanning/draining loop of [run], followed by the properties of the
    specification that were checked against them.

    Conventions.
    - A Go [string] is a sequence of bytes: it is a [string] of 8-bit [ascii]
      here.  [Action] and [Status] are Go string types and stay strings.
    - [float64] is the kernel's binary64 [float].
    - [map[Key]Events] is a [gmap Key Events].  A Go [range] over a map visits
      the keys in an unspecified order; wherever that order can matter the
      order is an explicit argument (see [range_order]).
    - Printing is modelled by the text that is printed. *)

From Stdlib Require Import Floats ZArith Ascii String.
From stdpp Require Import gmap strings list fin_maps sorting pretty.

#[local] Set Warnings "-inexact-float".
#[local] Open Scope string_scope.
#[local] Open Scope nat_scope.
#[local] Open Scope list_scope.
#[local] Open Scope stdpp_scope.

(** ** Go's [strings] and [fmt] helpers used by the program *)

Definition nl : string := String "010"%char "".
Definition tab : string := String "009"%char "".

(** [strip_prefix p s] is [Some rest] when [s = p ++ rest]. *)
Fixpoint strip_prefix (p s : string) : option string :=
  match p, s with
  | EmptyString, _ => Some s
  | String a p', String b s' =>
      if Ascii.eqb a b then strip_prefix p' s' else None
  | String _ _, EmptyString => None
  end.

Definition strip_suffix (suf s : string) : option string :=
  String.rev <$> strip_prefix (String.rev suf) (String.rev s).

(** [strings.HasPrefix(s, prefix)] *)
Definition HasPrefix (s prefix : string) : bool :=
  bool_decide (is_Some (strip_prefix prefix s)).

(** [strings.HasSuffix(s, suffix)] *)
Definition HasSuffix (s suffix : string) : bool :=
  bool_decide (is_Some (strip_suffix suffix s)).

(** [strings.TrimPrefix(s, prefix)] *)
Definition TrimPrefix (s prefix : string) : string :=
  default s (strip_prefix prefix s).

(** [strings.TrimSuffix(s, suffix)] *)
Definition TrimSuffix (s suffix : string) : string :=
  default s (strip_suffix suffix s).

(** [strings.TrimLeft(s, " ")]: drop the leading bytes 0x20. *)
Fixpoint TrimLeft_space (s : string) : string :=
  match s with
  | String c s' => if Ascii.eqb c " "%char then TrimLeft_space s' else s
  | EmptyString => s
  end.

(** The UTF-8 encodings of the runes for which [unicode.IsSpace] holds:
    tab, LF, VT, FF, CR, space, U+0085, U+00A0, U+1680, U+2000..U+200A,
    U+2028, U+2029, U+202F, U+205F and U+3000.  A byte sequence that is not
    one of these decodes either to another rune or to the error rune, which
    is not white space. *)
Definition bytes (l : list nat) : string :=
  string_of_list_ascii (Ascii.ascii_of_nat <$> l).

Definition space_runes : list string :=
  bytes <$>
    [ [9]; [10]; [11]; [12]; [13]; [32];
      [194; 133]; [194; 160]; [225; 154; 128];
      [226; 128; 128]; [226; 128; 129]; [226; 128; 130]; [226; 128; 131];
      [226; 128; 132]; [226; 128; 133]; [226; 128; 134]; [226; 128; 135];
      [226; 128; 136]; [226; 128; 137]; [226; 128; 138];
      [226; 128; 168]; [226; 128; 169]; [226; 128; 175];
      [226; 129; 159]; [227; 128; 128] ].

Fixpoint first_some {A B} (f : A → option B) (l : list A) : option B :=
  match l with
  | [] => None
  | x :: l' => match f x with Some y => Some y | None => first_some f l' end
  end.

(** The rest of [s] after one leading (resp. before one trailing)
    white-space rune, if there is one. *)
Definition strip_space_left (s : string) : option string :=
  first_some (λ r, strip_prefix r s) space_runes.

Definition strip_space_right (s : string) : option string :=
  first_some (λ r, strip_suffix r s) space_runes.

Fixpoint trim_loop (strip : string → option string) (fuel : nat)
    (s : string) : string :=
  match fuel with
  | O => s
  | S fuel' =>
      match strip s with
      | Some s' => trim_loop strip fuel' s'
      | None => s
      end
  end.

(** [strings.TrimSpace(s)]: drop the leading and the trailing white-space
    runes.  Every step removes at least one byte, so [String.length s]
    steps are enough ([TrimSpace_left_done], [TrimSpace_right_done]). *)
Definition TrimSpace (s : string) : string :=
  let s1 := trim_loop strip_space_left (String.length s) s in
  trim_loop strip_space_right (String.length s1) s1.

(** [strconv.FormatFloat(x, 'f', 2, 64)], which is what the verb [%.2f]
    prints: the exact value of [x] rounded to two decimals, ties to even. *)
Definition round_half_even (num den : Z) : Z :=
  let q := (num / den)%Z in
  let r := (num mod den)%Z in
  match (2 * r ?= den)%Z with
  | Lt => q
  | Gt => (q + 1)%Z
  | Eq => if Z.even q then q else (q + 1)%Z
  end.

Definition two_digits (n : Z) : string :=
  (if (n <? 10)%Z then "0" else "") +:+ pretty n.

Definition Sprintf_2f (x : float) : string :=
  match Prim2SF x with
  | S754_nan => "NaN"
  | S754_infinity s => if s then "-Inf" else "+Inf"
  | S754_zero s => (if s then "-" else "") +:+ "0.00"
  | S754_finite s m e =>
      let h :=
        match e with
        | Zneg k => round_half_even (Zpos m * 100) (2 ^ Zpos k)
        | _ => (Zpos m * 2 ^ e * 100)%Z
        end in
      (if s then "-" else "") +:+ pretty (h / 100)%Z +:+ "." +:+
      two_digits (h mod 100)%Z
  end.

(** The padding of [fmt.Sprintf("%6s ", s)]: spaces on the left up to [width]
    characters (the status names it is used on are ASCII). *)
Definition pad_left (width : nat) (s : string) : string :=
  string_of_list_ascii (replicate (width - String.length s) " "%char) +:+ s.

(** ** Actions, statuses and flags *)

Definition Verbosity := Z.
Definition V0 : Verbosity := 0%Z.
Definition V1 : Verbosity := 1%Z.
Definition V2 : Verbosity := 2%Z.
Definition V3 : Verbosity := 3%Z.
Definition V4 : Verbosity := 4%Z.
Definition V5 : Verbosity := 5%Z.

Definition Action := string.
Definition Actions := list Action.

Definition ActionRun : Action := "run".
Definition ActionPause : Action := "pause".
Definition ActionCont : Action := "cont".
Definition ActionPass : Action := "pass".
Definition ActionBench : Action := "bench".
Definition ActionFail : Action := "fail".
Definition ActionOutput : Action := "output".
Definition ActionSkip : Action := "skip".

Definition EndingActions : Actions :=
  [ActionFail; ActionSkip; ActionPass; ActionBench].

(** [Status] is a Go string type; [Status(ActionPass)] is a conversion. *)
Definition Status := string.
Definition Statuses := list Status.

Definition StatusPass : Status := ActionPass.
Definition StatusFail : Status := ActionFail.
Definition StatusSkip : Status := ActionSkip.
Definition StatusBench : Status := ActionBench.
Definition StatusNone : Status := "none".

Definition AllStatuses : Statuses :=
  [StatusBench; StatusPass; StatusSkip; StatusNone; StatusFail].

(** The table [statusNames]; a missing key reads as the empty string. *)
Definition statusNames (s : Status) : string :=
  if String.eqb s StatusFail then "FAIL"
  else if String.eqb s StatusPass then "PASS"
  else if String.eqb s StatusNone then "NONE"
  else if String.eqb s StatusSkip then "SKIP"
  else if String.eqb s StatusBench then "BENCH"
  else "".

Record Flags := {
  Flags_V : Verbosity;
  Flags_Results : Statuses;
  Flags_HideEmptyResults : Statuses;
  Flags_Summary : Statuses;
  Flags_All : bool;
}.

(** [Status.IsAction] *)
Definition Status_IsAction (s : Status) (a : Action) : bool :=
  if String.eqb a ActionBench then String.eqb s StatusBench
  else if String.eqb a ActionPass then String.eqb s StatusPass
  else if String.eqb a ActionFail then String.eqb s StatusFail
  else if String.eqb a ActionSkip then String.eqb s StatusSkip
  else false.

(** [Statuses.Any] *)
Definition Statuses_Any (ss : Statuses) (statuses : list Status) : bool :=
  existsb (λ s, bool_decide (s ∈ statuses)) ss.

(** [Statuses.HasAction] *)
Definition Statuses_HasAction (ss : Statuses) (action : Action) : bool :=
  existsb (λ s, Status_IsAction s action) ss.

(** ** Events and keys *)

Record Event := {
  Event_Time : Z;          (* the instant, in nanoseconds *)
  Event_Action : Action;
  Event_Package : string;
  Event_Test : string;
  Event_Elapsed : float;   (* seconds *)
  Event_Output : string;
}.

Record Key := { Key_Package : string; Key_Test : string }.

#[global] Instance Key_eq_dec : EqDecision Key.
Proof. solve_decision. Defined.

#[global] Instance Key_countable : Countable Key.
Proof.
  refine (inj_countable' (λ k, (Key_Package k, Key_Test k))
                         (λ p, {| Key_Package := p.1; Key_Test := p.2 |}) _).
  by intros [].
Defined.

(** [Event.Key] *)
Definition Event_Key (t : Event) : Key :=
  {| Key_Package := Event_Package t; Key_Test := Event_Test t |}.

(** [Key.String] *)
Definition Key_String (t : Key) : string :=
  if String.eqb (Key_Test t) "" then Key_Package t
  else Key_Package t +:+ "." +:+ Key_Test t.

Definition Events := list Event.

(** [Events.Status] *)
Fixpoint Events_Status (es : Events) : Status :=
  match es with
  | [] => StatusNone
  | e :: es' =>
      if String.eqb (Event_Action e) ActionFail then StatusFail
      else if String.eqb (Event_Action e) ActionPass then StatusPass
      else if String.eqb (Event_Action e) ActionSkip then StatusSkip
      else if String.eqb (Event_Action e) ActionBench then StatusBench
      else Events_Status es'
  end.

(** [Events.FindFirstByAction]: [None] is the nil pointer. *)
Definition Events_FindFirstByAction (es : Events) (actions : list Action)
    : option Event :=
  list_find (λ v, Event_Action v ∈ actions) es ≫= λ p, Some p.2.

(** The elapsed time [Compact] remembers for an action: that of the first
    event with the action, and the zero value when there is none. *)
Definition first_elapsed (es : Events) (a : Action) : float :=
  match Events_FindFirstByAction es [a] with
  | Some e => Event_Elapsed e
  | None => 0%float
  end.

(** The condition under which the loop of [Events.Compact] drops [e]. *)
Definition Compact_drops (failedAt passedAt skippedAt : float) (e : Event)
    : bool :=
  let output := TrimLeft_space (Event_Output e) in
  let outputWS := TrimSpace (Event_Output e) in
  String.eqb (Event_Action e) "run" ||
  String.eqb (Event_Action e) "cont" ||
  String.eqb (Event_Action e) "pause" ||
  (String.eqb (Event_Action e) "output" && negb (String.eqb (Event_Test e) "") &&
     (String.eqb output ("=== RUN   " +:+ Event_Test e +:+ nl) ||
      String.eqb output ("=== CONT  " +:+ Event_Test e +:+ nl) ||
      String.eqb output ("=== PAUSE " +:+ Event_Test e +:+ nl) ||
      String.eqb output ("--- FAIL: " +:+ Event_Test e +:+ " ("
                            +:+ Sprintf_2f failedAt +:+ "s)" +:+ nl) ||
      String.eqb output ("--- SKIP: " +:+ Event_Test e +:+ " ("
                            +:+ Sprintf_2f skippedAt +:+ "s)" +:+ nl) ||
      String.eqb output ("--- PASS: " +:+ Event_Test e +:+ " ("
                            +:+ Sprintf_2f passedAt +:+ "s)" +:+ nl))) ||
  (String.eqb (Event_Action e) "output" &&
   negb (String.eqb (Event_Package e) "") && String.eqb (Event_Test e) "" &&
     (HasPrefix output ("ok  " +:+ tab +:+ Event_Package e) ||
      HasSuffix output ("[no test files]" +:+ nl) ||
      String.eqb output ("ok   " +:+ Event_Package e +:+ nl) ||
      String.eqb output ("PASS" +:+ nl) ||
      String.eqb output ("FAIL" +:+ nl) ||
      String.eqb output ("testing: warning: no tests to run" +:+ nl) ||
      HasPrefix outputWS ("FAIL" +:+ tab +:+ Event_Package e +:+ tab) ||
      (HasPrefix outputWS "coverage:" && HasSuffix outputWS "of statements"))).

(** [Events.Compact] *)
Definition Events_Compact (es : Events) : Events :=
  let passedAt := first_elapsed es ActionPass in
  let failedAt := first_elapsed es ActionFail in
  let skippedAt := first_elapsed es ActionSkip in
  filter (λ e, Compact_drops failedAt passedAt skippedAt e = false) es.

(** [Events.IsPackageWithoutTest] *)
Definition Events_IsPackageWithoutTest (es : Events) : bool :=
  existsb (λ e,
    let output := TrimLeft_space (Event_Output e) in
    String.eqb (Event_Action e) "output" &&
    negb (String.eqb (Event_Package e) "") &&
    String.eqb (Event_Test e) "" &&
    HasSuffix output ("[no test files]" +:+ nl)) es.

(** The body of the loop of [Events.FindCoverage]. *)
Fixpoint FindCoverage_loop (es : Events) : string :=
  match es with
  | [] => ""
  | event :: es' =>
      if negb (String.eqb (Event_Action event) ActionOutput)
      then FindCoverage_loop es'
      else
        let output := TrimSpace (Event_Output event) in
        if HasPrefix output "coverage: " && HasSuffix output " of statements"
        then
          let output := TrimPrefix output "coverage:" in
          let output := TrimSuffix output "of statements" in
          TrimSpace output
        else FindCoverage_loop es'
  end.

(** [Events.FindCoverage] *)
Definition Events_FindCoverage (es : Events) : string :=
  match es with
  | [] => ""
  | e0 :: _ =>
      if String.eqb (Event_Package e0) "" || negb (String.eqb (Event_Test e0) "")
      then ""
      else FindCoverage_loop es
  end.

(** The two local slices of [Events.PrintDetail]: [events] before it is
    sorted by time, and [filteredEvents], whose output lines are printed
    under the header line. *)
Definition PrintDetail_events (flags : Flags) (es : Events) : Events :=
  if bool_decide (Flags_V flags ≤ V3)%Z then Events_Compact es else es.

Definition PrintDetail_filteredEvents (flags : Flags) (es : Events) : Events :=
  filter (λ e, ¬ ((Flags_V flags ≤ V3)%Z ∧ TrimSpace (Event_Output e) = ""))
         (PrintDetail_events flags es).

(** ** Ordering of keys *)

(** *** [github.com/maruel/natural] v1.1.1, [natural.Less]

    A dependency of the program.  Digit runs are compared as numbers,
    everything else byte by byte; on strings without digits it is the
    byte-wise order of Go's [<]. *)

Definition is_digit (c : ascii) : bool :=
  (48 <=? nat_of_ascii c)%nat && (nat_of_ascii c <=? 57)%nat.

Fixpoint commonPrefix (a b : string) : nat :=
  match a, b with
  | String ca a', String cb b' =>
      if is_digit ca || is_digit cb || negb (Ascii.eqb ca cb) then 0
      else S (commonPrefix a' b')
  | _, _ => 0
  end.

Fixpoint digits (s : string) : nat :=
  match s with
  | String c s' => if is_digit c then S (digits s') else 0
  | EmptyString => 0
  end.

Fixpoint string_drop (n : nat) (s : string) : string :=
  match n, s with
  | S n', String _ s' => string_drop n' s'
  | _, _ => s
  end.

Fixpoint string_take (n : nat) (s : string) : string :=
  match n, s with
  | S n', String c s' => String c (string_take n' s')
  | _, _ => EmptyString
  end.

(** [strconv.ParseUint(s, 10, 64)] on a non-empty run of digits: the only
    error is a value that does not fit 64 bits. *)
Definition ParseUint (s : string) : option N :=
  let v := fold_left (λ acc c, (acc * 10 + N.of_nat (nat_of_ascii c - 48))%N)
                     (list_ascii_of_string s) 0%N in
  if (v <? 2 ^ 64)%N then Some v else None.

Fixpoint natural_Less_loop (fuel : nat) (a b : string) : bool :=
  let p := commonPrefix a b in
  let a := string_drop p a in
  let b := string_drop p b in
  if (String.length a =? 0)%nat then negb (String.length b =? 0)%nat
  else
    let ia := digits a in
    let ib := digits b in
    match fuel with
    | S fuel' =>
        if (0 <? ia)%nat && (0 <? ib)%nat then
          match ParseUint (string_take ia a), ParseUint (string_take ib b) with
          | Some an, Some bn =>
              if negb (an =? bn)%N then (an <? bn)%N
              else if negb (ia =? String.length a)%nat && negb (ib =? String.length b)%nat
                   then natural_Less_loop fuel' (string_drop ia a) (string_drop ib b)
                   else String.ltb a b
          | _, _ => String.ltb a b
          end
        else String.ltb a b
    | O => String.ltb a b
    end.

(** Every turn of the loop drops at least one digit of [a], so
    [String.length a] turns are enough ([natural_Less_loop_fuel]). *)
Definition natural_Less (a b : string) : bool :=
  natural_Less_loop (String.length a) a b.

(** *** [sort.SliceStable]

    Go sorts blocks of 20 elements by insertion ([insertionSort_func]) and
    then merges the blocks ([symMerge_func]).  A slice of at most 20
    elements is a single block and nothing is merged: the result is the
    insertion sort below, whatever [less] is.  For a longer slice the two
    agree when [less] is a strict weak order, the result of a stable sort
    being unique then.  Both only ever swap elements, and
    [SliceStable_Permutation] is all that the general statements below use
    of the sort. *)
Section Sort.
Context {A : Type} (less : A → A → bool).

Definition Swap (data : list A) (i j : nat) : list A :=
  match data !! i, data !! j with
  | Some x, Some y => <[i := y]> (<[j := x]> data)
  | _, _ => data
  end.

Definition Less (data : list A) (i j : nat) : bool :=
  match data !! i, data !! j with
  | Some x, Some y => less x y
  | _, _ => false
  end.

(** [for j := i; j > a && less(j, j-1); j-- { swap(j, j-1) }] *)
Fixpoint insertion_inner (a j : nat) (data : list A) : list A :=
  match j with
  | S j' =>
      if (a <? j)%nat && Less data j j'
      then insertion_inner a j' (Swap data j j')
      else data
  | O => data
  end.

(** [insertionSort_func(data, a, b)] *)
Definition insertionSort (a b : nat) (data : list A) : list A :=
  foldl (λ d i, insertion_inner a i d) data (seq (a + 1) (b - (a + 1))).

Definition SliceStable (data : list A) : list A :=
  insertionSort 0 (length data) data.
End Sort.

(** The comparison function of [TestStorage.OrderedKeys]. *)
Definition OrderedKeys_less (ki kj : Key) : bool :=
  if bool_decide (Key_Package ki = Key_Package kj) &&
     (String.eqb (Key_Test ki) "" || String.eqb (Key_Test kj) "")
  then (String.length (Key_Test kj) <? String.length (Key_Test ki))%nat
  else natural_Less (Key_String ki) (Key_String kj).

(** ** The unit store *)

Abbreviation TestStorage := (gmap Key Events).

(** [tks] is an order in which a [range] over the map [ts] can visit its
    keys: each key once, in any order. *)
Definition range_order (ts : TestStorage) (tks : list Key) : Prop :=
  NoDup tks ∧ list_to_set tks = dom ts.

#[global] Instance range_order_dec ts tks : Decision (range_order ts tks).
Proof. unfold range_order. apply _. Defined.

(** [TestStorage.OrderedKeys], given the order [tks] in which the map was
    ranged over to collect the keys. *)
Definition TestStorage_OrderedKeys (tks : list Key) : list Key :=
  SliceStable OrderedKeys_less tks.

(** [TestStorage.Append] *)
Definition TestStorage_Append (ts : TestStorage) (e : Event) : TestStorage :=
  let key := Event_Key e in
  let events := default [] (ts !! key) in
  <[key := events ++ [e]]> ts.

(** [TestStorage.FilterPackageResults] *)
Definition TestStorage_FilterPackageResults (ts : TestStorage) : TestStorage :=
  filter (λ kv, Key_Test kv.1 ≠ "") ts.

(** [TestStorage.FindPackageResults] *)
Definition TestStorage_FindPackageResults (ts : TestStorage) : TestStorage :=
  filter (λ kv, Key_Test kv.1 = "") ts.

(** [TestStorage.FilterKeys]; a key missing from [exclude] reads [false]. *)
Definition TestStorage_FilterKeys (ts : TestStorage) (exclude : gmap Key bool)
    : TestStorage :=
  filter (λ kv, default false (exclude !! kv.1) = false) ts.

(** [TestStorage.FindPackageTests] *)
Definition TestStorage_FindPackageTests (ts : TestStorage) (name : string)
    : TestStorage :=
  filter (λ kv, name = Key_Package kv.1) ts.

(** [TestStorage.FindByAction] *)
Definition TestStorage_FindByAction (ts : TestStorage) (action : Action)
    : TestStorage :=
  filter (λ kv, existsb (λ e, String.eqb (Event_Action e) action) kv.2 = true) ts.

(** [TestStorage.FilterAction]; [actionMatch] is the set of [actions]. *)
Definition TestStorage_FilterAction (ts : TestStorage) (actions : list Action)
    : TestStorage :=
  filter (λ kv, existsb (λ e, bool_decide (Event_Action e ∈ actions)) kv.2 = false) ts.

(** [TestStorage.WithCoverage] *)
Definition TestStorage_WithCoverage (ts : TestStorage) : TestStorage :=
  filter (λ kv, ¬ (Key_Test kv.1 ≠ "" ∨ Key_Package kv.1 = "") ∧
                Events_FindCoverage kv.2 ≠ "") ts.

(** [TestStorage.FilterNotests] *)
Definition TestStorage_FilterNotests (ts : TestStorage) : TestStorage :=
  filter (λ kv, Events_IsPackageWithoutTest kv.2 = false) ts.

(** [TestStorage.CountTests] *)
Definition TestStorage_CountTests (ts : TestStorage) : nat :=
  size (TestStorage_FilterPackageResults ts).

(** ** Presentation *)

(** The colour functions of [github.com/fatih/color] the program builds with
    [color.New(...).SprintFunc()].  What they add around the text depends on
    the terminal; with colours off they return the text unchanged
    ([plain]). *)
Record Palette := {
  packageColor : string → string;
  testColor : string → string;
  timeColor : string → string;
  coverColor : string → string;
  failColor : string → string;
  noneColor : string → string;
  passColor : string → string;
  skipColor : string → string;
  failColorBold : string → string;
  noneColorBold : string → string;
  passColorBold : string → string;
  skipColorBold : string → string;
}.

Definition plain : Palette :=
  {| packageColor := id; testColor := id; timeColor := id; coverColor := id;
     failColor := id; noneColor := id; passColor := id; skipColor := id;
     failColorBold := id; noneColorBold := id; passColorBold := id;
     skipColorBold := id |}.

(** The table [statusColors]; [None] is the nil function of a missing key,
    and calling it panics. *)
Definition statusColors (pal : Palette) (s : Status) : option (string → string) :=
  if String.eqb s StatusFail then Some (failColor pal)
  else if String.eqb s StatusPass then Some (passColor pal)
  else if String.eqb s StatusNone then Some (noneColor pal)
  else if String.eqb s StatusSkip then Some (skipColor pal)
  else if String.eqb s StatusBench then Some (passColor pal)
  else None.

(** The table [statusColorsBold]. *)
Definition statusColorsBold (pal : Palette) (s : Status) : option (string → string) :=
  if String.eqb s StatusFail then Some (failColorBold pal)
  else if String.eqb s StatusPass then Some (passColorBold pal)
  else if String.eqb s StatusNone then Some (noneColorBold pal)
  else if String.eqb s StatusSkip then Some (skipColorBold pal)
  else if String.eqb s StatusBench then Some (passColorBold pal)
  else None.

Definition hr_text : string := "════════════".

Section Render.
Variable pal : Palette.

(** The elapsed-time part of a summary line. *)
Definition elapsed_tag (events : Events) : string :=
  match Events_FindFirstByAction events EndingActions with
  | Some fe =>
      if PrimFloat.leb 0.01 (Event_Elapsed fe)
      then "  " +:+ timeColor pal ("(" +:+ Sprintf_2f (Event_Elapsed fe) +:+ "s)")
      else ""
  | None => ""
  end.

Definition notests_tag (events : Events) : string :=
  if Events_IsPackageWithoutTest events then "  " +:+ "[no tests]" else "".

Definition coverage_tag (events : Events) : string :=
  let coverage := Events_FindCoverage events in
  if 0 <? String.length coverage
  then "  " +:+ coverColor pal ("{" +:+ coverage +:+ "}")
  else "".

(** One turn of the loop of [TestStorage.PrintSummary]. *)
Definition PrintSummary_line (statusColor : string → string)
    (status : Status) (ts : TestStorage) (key : Key) : string :=
  let prefix := statusColor (pad_left 6 (statusNames status) +:+ " ") in
  let events := default [] (ts !! key) in
  let sb := elapsed_tag events in
  if String.eqb (Key_Test key) "" then
    let sb := sb +:+ notests_tag events in
    let sb := sb +:+ coverage_tag events in
    prefix +:+ packageColor pal (Key_Package key) +:+ sb +:+ nl
  else
    prefix +:+ packageColor pal (Key_Package key) +:+
    "." +:+ testColor pal (Key_Test key) +:+ sb +:+ nl.

(** [TestStorage.PrintSummary]: the texts printed, one per call of
    [fmt.Println] or [fmt.Print]; [None] is the panic of a status without
    colour.  [tks] is the order in which [OrderedKeys] ranged over [ts]. *)
Definition TestStorage_PrintSummary (ts : TestStorage) (status : Status)
    (tks : list Key) : option (list string) :=
  statusColor ← statusColors pal status;
  let header := statusColor (statusNames status) in
  let hr := statusColor hr_text in
  Some ((hr +:+ " " +:+ header +:+ " " +:+ hr +:+ nl) ::
        (PrintSummary_line statusColor status ts <$> TestStorage_OrderedKeys tks)).

(** One turn of the loop of [TestStorage.PrintShortSummary]. *)
Definition PrintShortSummary_line (statusColor : string → string)
    (status : Status) (ts : TestStorage) (key : Key) : string :=
  let prefix := statusColor (pad_left 6 (statusNames status) +:+ " ") in
  let events := default [] (ts !! key) in
  let sb := elapsed_tag events in
  let count :=
    TestStorage_CountTests (TestStorage_FindPackageTests ts (Key_Package key)) in
  let sb := sb +:+ "   " in
  let sb := sb +:+ statusColor ("<" +:+ pretty count +:+ " tests>") in
  let sb := sb +:+ notests_tag events in
  let sb := sb +:+ coverage_tag events in
  prefix +:+ packageColor pal (Key_Package key) +:+ sb +:+ nl.

(** [TestStorage.PrintShortSummary]; [tks] is the order in which
    [OrderedKeys] ranged over [ts.FindPackageResults()]. *)
Definition TestStorage_PrintShortSummary (ts : TestStorage) (status : Status)
    (tks : list Key) : option (list string) :=
  statusColor ← statusColors pal status;
  statusBold ← statusColorsBold pal status;
  let header := statusBold (statusNames status) in
  let hr := statusColor hr_text in
  Some ((hr +:+ " " +:+ header +:+ " " +:+ hr +:+ nl) ::
        (PrintShortSummary_line statusColor status ts <$> TestStorage_OrderedKeys tks)).
End Render.

(** ** The stream driver [run] *)

(** The calls [run] makes to the presenters, in order. *)
Inductive Call :=
  | Call_PrintDetail (key : Key) (es : Events)
  | Call_PrintSummary (filtered : TestStorage) (status : Status).

Record Scan := {
  Scan_tests : TestStorage;
  Scan_printed : gmap Key bool;
  Scan_calls : list Call;
}.

Definition Scan_init : Scan :=
  {| Scan_tests := ∅; Scan_printed := ∅; Scan_calls := [] |}.

(** One turn of the loop labelled [scan].  [line] is what [json.Unmarshal]
    made of the line: [None] when it failed, and the line is skipped. *)
Definition scan_step (flags : Flags) (st : Scan) (line : option Event) : Scan :=
  match line with
  | None => st
  | Some e =>
      let tests := TestStorage_Append (Scan_tests st) e in
      let key := Event_Key e in
      if negb (default false (Scan_printed st !! key)) &&
         Statuses_HasAction (Flags_Results flags) (Event_Action e)
      then {| Scan_tests := tests;
              Scan_printed := <[key := true]> (Scan_printed st);
              Scan_calls := Scan_calls st ++
                              [Call_PrintDetail key (default [] (tests !! key))] |}
      else {| Scan_tests := tests;
              Scan_printed := Scan_printed st;
              Scan_calls := Scan_calls st |}
  end.

(** The scanning phase on the lines of the input, in arrival order. *)
Definition run_scan (flags : Flags) (lines : list (option Event)) : Scan :=
  foldl (scan_step flags) Scan_init lines.

(** The store handed to [PrintSummary] for one [status] of [flags.Summary]
    and one ending [action], in the branch for a status other than none. *)
Definition summary_filtered (flags : Flags) (tests : TestStorage)
    (action : Action) : TestStorage :=
  let filtered := TestStorage_FindByAction tests action in
  if String.eqb action ActionSkip && bool_decide (Flags_V flags ≤ V3)%Z
  then TestStorage_FilterNotests filtered
  else filtered.

(** The loop commented "print summaries", for one [status]. *)
Definition run_summary (flags : Flags) (tests : TestStorage) (status : Status)
    : list Call :=
  if String.eqb status StatusNone then
    let filtered := TestStorage_FilterAction tests EndingActions in
    if 0 <? size filtered then [Call_PrintSummary filtered status] else []
  else
    concat ((λ action,
      if Status_IsAction status action then
        let filtered := summary_filtered flags tests action in
        if 0 <? size filtered then [Call_PrintSummary filtered status] else []
      else []) <$> EndingActions).

Definition run_summaries (flags : Flags) (tests : TestStorage) : list Call :=
  if 0 <? size tests
  then concat (run_summary flags tests <$> Flags_Summary flags)
  else [].

(** What [cmd.Wait] returns at the end of [run]. *)
Inductive WaitError :=
  | Wait_ok                                 (* nil *)
  | Wait_ExitError (exited : bool) (exitCode : Z)   (* *exec.ExitError *)
  | Wait_other.                             (* any other error *)

(** The error [run] returns once the process was started. *)
Inductive RunError :=
  | ExitError (code : Z)
  | OtherError.

Definition run_return (cmdErr : WaitError) : option RunError :=
  match cmdErr with
  | Wait_ExitError true exitCode => Some (ExitError exitCode)
  | _ => None
  end.

(** The status [main] exits with, from what [run] returned: [os.Exit(int(ee))]
    for an [ExitError], [os.Exit(1)] for another error, and the normal end of
    [main] otherwise. *)
Definition main_exit (err : option RunError) : Z :=
  match err with
  | Some (ExitError ee) => ee
  | Some OtherError => 1
  | None => 0
  end.

(** ** Notions used in the statements *)

(** The status as the specification words it: the status of the first event
    whose action is one of fail, pass, skip, bench, and none without such an
    event.  The status of an ending action is the action's own name
    ([StatusFail = Status(ActionFail)], and so on). *)
Definition first_ending_status (es : Events) : Status :=
  match list_find (λ e, Event_Action e ∈ [ActionFail; ActionPass; ActionSkip; ActionBench]) es with
  | Some (_, e) => Event_Action e
  | None => StatusNone
  end.

Definition is_ending (a : Action) : bool :=
  String.eqb a ActionFail || String.eqb a ActionPass ||
  String.eqb a ActionSkip || String.eqb a ActionBench.

(** The keys of the immediate detail prints among the calls. *)
Definition detail_keys (calls : list Call) : list Key :=
  omap (λ c, match c with
             | Call_PrintDetail key _ => Some key
             | Call_PrintSummary _ _ => None
             end) calls.

(** Every key that was printed is marked, and no key was printed twice. *)
Definition scan_inv (st : Scan) : Prop :=
  NoDup (detail_keys (Scan_calls st)) ∧
  ∀ key, key ∈ detail_keys (Scan_calls st) → Scan_printed st !! key = Some true.

Definition has_action (a : Action) (es : Events) : bool :=
  existsb (λ e, String.eqb (Event_Action e) a) es.

(** A unit flagged as a package without tests, as the specification words
    it: its sequence contains a package-level output event (an event of a
    package and of no test) whose text ends in [[no test files]], the end
    of a line of output being its newline. *)
Definition no_test_files_event (e : Event) : Prop :=
  Event_Action e = ActionOutput ∧ Event_Package e ≠ "" ∧ Event_Test e = "" ∧
  ∃ pre, Event_Output e = pre +:+ "[no test files]" +:+ nl.

Definition flagged_without_tests (es : Events) : Prop :=
  ∃ e, e ∈ es ∧ no_test_files_event e.



(** The test of the loop of [FindCoverage]: an output event whose trimmed
    text starts with [coverage: ] and ends with [ of statements]. *)
Definition is_coverage_line (e : Event) : bool :=
  String.eqb (Event_Action e) ActionOutput &&
  (HasPrefix (TrimSpace (Event_Output e)) "coverage: " &&
   HasSuffix (TrimSpace (Event_Output e)) " of statements").

(** What [FindCoverage] returns at a coverage line. *)
Definition coverage_of (e : Event) : string :=
  TrimSpace (TrimSuffix (TrimPrefix (TrimSpace (Event_Output e)) "coverage:")
                        "of statements").

(** ** Sample inputs *)

Definition ev (a : Action) (p t : string) (el : float) (out : string) : Event :=
  {| Event_Time := 0; Event_Action := a; Event_Package := p; Event_Test := t;
     Event_Elapsed := el; Event_Output := out |}.

(** The scenario of the specification: tests [a.T1] (fail) and [a.T2]
    (pass) and the package unit [a] (pass). *)
Definition kT1 : Key := {| Key_Package := "a"; Key_Test := "T1" |}.
Definition kT2 : Key := {| Key_Package := "a"; Key_Test := "T2" |}.
Definition kA : Key := {| Key_Package := "a"; Key_Test := "" |}.

Definition scenario : TestStorage :=
  foldl TestStorage_Append ∅
    [ ev ActionRun "a" "T1" 0 "";
      ev ActionRun "a" "T2" 0 "";
      ev ActionFail "a" "T1" 0 "";
      ev ActionPass "a" "T2" 0 "";
      ev ActionPass "a" "" 0 "" ].

Definition kP : Key := {| Key_Package := "a"; Key_Test := "" |}.
Definition kQ : Key := {| Key_Package := "a-b"; Key_Test := "" |}.
Definition kPT : Key := {| Key_Package := "a"; Key_Test := "T" |}.

(** Package [a] with its test [T], and package [a-b]. *)
Definition two_packages : TestStorage :=
  foldl TestStorage_Append ∅
    [ ev ActionPass "a" "T" 0 "";
      ev ActionPass "a" "" 0 "";
      ev ActionPass "a-b" "" 0 "" ].

(** A package [q] without test files and a skipped test [r.T]. *)
Definition es_q : Events :=
  [ ev ActionOutput "q" "" 0 ("?   " +:+ tab +:+ "q" +:+ tab +:+ "[no test files]" +:+ nl);
    ev ActionSkip "q" "" 0 "" ].
Definition es_rT : Events :=
  [ ev ActionRun "r" "T" 0 "";
    ev ActionSkip "r" "T" 0 "" ].
Definition skipped : TestStorage := foldl TestStorage_Append ∅ (es_q ++ es_rT).
Definition k_q : Key := {| Key_Package := "q"; Key_Test := "" |}.
Definition k_rT : Key := {| Key_Package := "r"; Key_Test := "T" |}.

Definition flags_at (v : Verbosity) : Flags :=
  {| Flags_V := v; Flags_Results := [StatusFail; StatusNone];
     Flags_HideEmptyResults := []; Flags_Summary := [StatusSkip];
     Flags_All := false |}.

(** ** More of the program *)

(** [Action.IsStatus] *)
Definition Action_IsStatus (a : Action) (s : Status) : bool :=
  if String.eqb s StatusBench then String.eqb a ActionBench
  else if String.eqb s StatusPass then String.eqb a ActionPass
  else if String.eqb s StatusFail then String.eqb a ActionFail
  else if String.eqb s StatusSkip then String.eqb a ActionSkip
  else false.

(** [Statuses.String]: [strings.Join(r, ",")]. *)
Fixpoint Join (elems : list string) (sep : string) : string :=
  match elems with
  | [] => ""
  | [x] => x
  | x :: rest => x +:+ sep +:+ Join rest sep
  end.

Definition Statuses_String (ss : Statuses) : string := Join ss ",".

(** [strings.Split(s, ",")]: the pieces between the commas; a string without
    a comma, the empty one too, is a single piece. *)
Fixpoint Split_comma (s : string) : list string :=
  match s with
  | EmptyString => [""]
  | String c s' =>
      if Ascii.eqb c ","%char then "" :: Split_comma s'
      else match Split_comma s' with
           | piece :: pieces => String c piece :: pieces
           | [] => [String c ""]
           end
  end.

(** [Statuses.Set]: the new value of the receiver, or [None] for the error
    [... is not a valid status], which leaves the receiver as it was.
    [ToLower] is [strings.ToLower]. *)
Definition Statuses_Set (ToLower : string → string) (value : string)
    : option Statuses :=
  let value := ToLower value in
  if String.eqb value "-" then Some []
  else if String.eqb value "all" then Some AllStatuses
  else
    let split := Split_comma value in
    if forallb (λ v, Statuses_Any AllStatuses [v]) split
    then Some split else None.

(** The flags after [Flags.Register] when nothing is given on the command
    line or in the environment. *)
Definition Flags_Register : Flags :=
  {| Flags_V := V0; Flags_Results := [StatusFail; StatusNone];
     Flags_HideEmptyResults := []; Flags_Summary := [StatusFail; StatusNone];
     Flags_All := false |}.

(** [Flags.Setup] *)
Definition Flags_Setup (f : Flags) (args : list string) : Flags :=
  let f :=
    if Flags_All f
    then {| Flags_V := Flags_V f; Flags_Results := AllStatuses;
            Flags_HideEmptyResults := []; Flags_Summary := AllStatuses;
            Flags_All := Flags_All f |}
    else f in
  foldl (λ f v,
    if String.eqb v "-v"
    then {| Flags_V := V2;
            Flags_Results := [StatusBench; StatusPass; StatusNone; StatusFail];
            Flags_HideEmptyResults := [StatusBench; StatusPass; StatusNone];
            Flags_Summary := [StatusNone; StatusFail];
            Flags_All := Flags_All f |}
    else f) f args.

(** [Events.Clone]: a copy; values have no identity here. *)
Definition Events_Clone (es : Events) : Events := es.

(** [Events.SortByTime]: [sort.SliceStable] with [Time.Before]. *)
Definition Events_SortByTime (es : Events) : Events :=
  SliceStable (λ x y, (Event_Time x <? Event_Time y)%Z) es.

(** [utf8.RuneCountInString]: the width in bytes of the rune at the head of
    a string, 1 for a byte that starts no valid encoding, and the count of
    runes. *)
Definition utf8_first (b : nat) : option (nat * nat * nat) :=
  if (194 <=? b) && (b <=? 223) then Some (2, 128, 191)
  else if b =? 224 then Some (3, 160, 191)
  else if (225 <=? b) && (b <=? 236) then Some (3, 128, 191)
  else if b =? 237 then Some (3, 128, 159)
  else if (238 <=? b) && (b <=? 239) then Some (3, 128, 191)
  else if b =? 240 then Some (4, 144, 191)
  else if (241 <=? b) && (b <=? 243) then Some (4, 128, 191)
  else if b =? 244 then Some (4, 128, 143)
  else None.

Definition byte_at (s : string) (i : nat) : nat :=
  match String.get i s with Some c => nat_of_ascii c | None => 0 end.

Definition rune_width (s : string) : nat :=
  let c := byte_at s 0 in
  if c <? 128 then 1
  else match utf8_first c with
       | None => 1
       | Some (size, lo, hi) =>
           if String.length s <? size then 1
           else if (byte_at s 1 <? lo) || (hi <? byte_at s 1) then 1
           else if size =? 2 then 2
           else if (byte_at s 2 <? 128) || (191 <? byte_at s 2) then 1
           else if size =? 3 then 3
           else if (byte_at s 3 <? 128) || (191 <? byte_at s 3) then 1
           else 4
       end.

Fixpoint RuneCount_from (skip : nat) (s : string) : nat :=
  match s with
  | EmptyString => 0
  | String _ s' =>
      match skip with
      | S k => RuneCount_from k s'
      | O => S (RuneCount_from (rune_width s - 1) s')
      end
  end.

Definition RuneCountInString (s : string) : nat := RuneCount_from 0 s.

(** [fmt.Sprintf("%7s", s)]: spaces on the left up to seven runes. *)
Definition Sprintf_7s (s : string) : string :=
  string_of_list_ascii (replicate (7 - RuneCountInString s) " "%char) +:+ s.

(** The colours [PrintDetail] uses besides those of [Palette]. *)
Record DetailColors := {
  defaultColor : string → string;
  testColorBold : string → string;
}.

Definition plain_detail : DetailColors :=
  {| defaultColor := id; testColorBold := id |}.

Section Detail.
Variable pal : Palette.
Variable dc : DetailColors.
(** [Time.Format("15:04:05.999")], in the zone the times of the run carry. *)
Variable Time_Format : Z → string.

(** The representative event and the colour of the output lines. *)
Definition PrintDetail_event (status : Status) (events : Events)
    : option Event * (string → string) :=
  if String.eqb status StatusFail
  then (Events_FindFirstByAction events [ActionFail], failColor pal)
  else if String.eqb status StatusPass
  then (Events_FindFirstByAction events [ActionPass], defaultColor dc)
  else if String.eqb status StatusSkip
  then (Events_FindFirstByAction events [ActionSkip], skipColor pal)
  else if String.eqb status StatusBench
  then (Events_FindFirstByAction events [ActionBench], defaultColor dc)
  else (None, defaultColor dc).

(** The header line, for the representative [event]. *)
Definition PrintDetail_header (statusColor statusBold : string → string)
    (status : Status) (es : Events) (event : Event) (numberEvents : nat)
    : string :=
  let testName :=
    if negb (String.eqb (Event_Test event) "")
    then
      let c := if 0 <? numberEvents then testColorBold dc else testColor pal in
      "." +:+ c (Event_Test event)
    else "" in
  let sb :=
    if PrimFloat.leb 0.01 (Event_Elapsed event)
    then "  " +:+ timeColor pal ("(" +:+ Sprintf_2f (Event_Elapsed event) +:+ "s)")
    else "" in
  let coverage := Events_FindCoverage es in
  let sb :=
    if 0 <? String.length coverage
    then sb +:+ "  " +:+ coverColor pal ("{" +:+ coverage +:+ "}")
    else sb in
  let sb :=
    if Events_IsPackageWithoutTest es
    then sb +:+ "  " +:+ "[no tests]"
    else sb in
  statusBold "===" +:+
  " " +:+ statusBold (statusNames status) +:+
  " " +:+ statusColor (Event_Package event) +:+ testName +:+
  sb +:+ nl.

(** One output line under the header. *)
Definition PrintDetail_line (flags : Flags) (textColor : string → string)
    (e : Event) : string :=
  let ss := if bool_decide (V3 ≤ Flags_V flags)%Z
            then [Sprintf_7s (Event_Action e)] else [] in
  let ss := if bool_decide (V3 ≤ Flags_V flags)%Z
            then ss ++ [Time_Format (Event_Time e)] else ss in
  let ss := ss ++ [textColor (TrimSuffix (Event_Output e) nl); nl] in
  Join ss " ".

(** [Events.PrintDetail]: the texts printed, one per call of [fmt.Print] or
    [fmt.Println]; [None] is the panic of a status without colour. *)
Definition Events_PrintDetail (es : Events) (flags : Flags)
    : option (list string) :=
  if length es =? 0 then Some []
  else
    let events := Events_Clone es in
    let events :=
      if bool_decide (Flags_V flags ≤ V3)%Z then Events_Compact events
      else events in
    if length events =? 0 then Some []
    else
      let filteredEvents :=
        filter (λ e, ¬ ((Flags_V flags ≤ V3)%Z ∧ TrimSpace (Event_Output e) = ""))
               events in
      let events := Events_SortByTime events in
      let status := Events_Status events in
      let numberEvents := length filteredEvents in
      if (numberEvents =? 0) && Statuses_Any (Flags_HideEmptyResults flags) [status]
      then Some []
      else
        let '(event, textColor) := PrintDetail_event status events in
        match (match event with Some e => Some e | None => head events end) with
        | None => None
        | Some event =>
            statusColor ← statusColors pal status;
            statusBold ← statusColorsBold pal status;
            let blank := if 0 <? length filteredEvents then [nl] else [] in
            Some ([PrintDetail_header statusColor statusBold status es event numberEvents]
                  ++ blank
                  ++ (PrintDetail_line flags textColor <$> filteredEvents)
                  ++ blank)
        end.
End Detail.

(** [TestStorage.Union]: the stores of [values] copied in turn into a new
    map ([maps.Copy]); the receiver [ts] is not read. *)
Definition TestStorage_Union (ts : TestStorage) (values : list TestStorage)
    : TestStorage :=
  foldl (λ tests values, values ∪ tests) ∅ values.

(** [fmt.Sprintf("%6s ", s)] on any string: the width counts runes. *)
Definition Sprintf_6s_sp (s : string) : string :=
  string_of_list_ascii (replicate (6 - RuneCountInString s) " "%char) +:+ s +:+ " ".

(** One turn of the loop of [TestStorage.PrintCoverage]: the text printed
    for [key], if any. *)
Definition PrintCoverage_line (pal : Palette) (ts : TestStorage) (key : Key)
    : list string :=
  let prefix := "" in
  let events := default [] (ts !! key) in
  if String.eqb (Key_Test key) "" then
    let coverage := Events_FindCoverage events in
    let coverage :=
      if 0 <? String.length coverage then Sprintf_6s_sp coverage else coverage in
    [prefix +:+ coverColor pal coverage +:+ packageColor pal (Key_Package key) +:+ nl]
  else [].

(** [TestStorage.PrintCoverage]; [tks] is the order in which [OrderedKeys]
    ranged over [ts]. *)
Definition TestStorage_PrintCoverage (pal : Palette) (ts : TestStorage)
    (tks : list Key) : list string :=
  let hr := coverColor pal hr_text in
  (hr +:+ " " +:+ coverColor pal "COVR" +:+ " " +:+ hr +:+ nl) ::
  concat (PrintCoverage_line pal ts <$> TestStorage_OrderedKeys tks).

(** The pass of [run] over the units that reported no ending action and were
    not printed while scanning: the calls it makes and the map [printed]
    after it.  [tks] is the order in which [OrderedKeys] ranged over
    [noneTests]. *)
Definition run_noneTests (tests : TestStorage) (printed : gmap Key bool)
    : TestStorage :=
  TestStorage_FilterAction (TestStorage_FilterKeys tests printed) EndingActions.

Definition run_none (flags : Flags) (tests : TestStorage)
    (printed : gmap Key bool) (tks : list Key) : list Call * gmap Key bool :=
  if (0 <? size tests) && Statuses_Any (Flags_Results flags) [StatusNone]
  then
    foldl (λ acc key,
             (acc.1 ++ [Call_PrintDetail key (default [] (tests !! key))],
              <[key := true]> acc.2))
          ([], printed) (TestStorage_OrderedKeys tks)
  else ([], printed).

(** The calls of one run to [PrintDetail] and [PrintSummary], in order:
    those of the scanning loop, of the pass over the units without ending
    action, and of the summaries. *)
Definition run_calls (flags : Flags) (lines : list (option Event))
    (tks : list Key) : list Call :=
  let st := run_scan flags lines in
  Scan_calls st ++
  (run_none flags (Scan_tests st) (Scan_printed st) tks).1 ++
  run_summaries flags (Scan_tests st).

(** The store [run] prints the coverage table of, if it prints one:
    [coverEnabled] is whether [-cover] is among the arguments. *)
Definition run_coverage (argv : list string) (tests : TestStorage)
    : option TestStorage :=
  let coverEnabled := existsb (λ v, String.eqb v "-cover") argv in
  if (0 <? size tests) && coverEnabled then
    let filtered := TestStorage_WithCoverage tests in
    if 0 <? size filtered then Some filtered else None
  else None.

(** The counters of the last line of [run]. *)
Record Counts := {
  countPass : nat; countFail : nat; countNone : nat; countSkip : nat;
}.

Definition run_counts (tests : TestStorage) : Counts :=
  let allFail := TestStorage_FindByAction tests ActionFail in
  let allPass := TestStorage_FindByAction tests ActionPass in
  let allSkip := TestStorage_FindByAction tests ActionSkip in
  let allNone := TestStorage_FilterAction tests EndingActions in
  {| countPass := TestStorage_CountTests allPass;
     countFail := TestStorage_CountTests allFail;
     countNone := size allNone;
     countSkip := TestStorage_CountTests allSkip |}.

(** ** Notions used in the further statements *)

(** Every sequence of the store is non-empty and holds events of its own
    key only. *)
Definition store_wf (ts : TestStorage) : Prop :=
  ∀ key es, ts !! key = Some es →
    es ≠ [] ∧ Forall (λ e, Event_Key e = key) es.

(** The events of the lines that could be decoded, in arrival order. *)
Definition decoded (lines : list (option Event)) : list Event :=
  omap id lines.

(** The operations of the store that select units. *)
Inductive Selection :=
  | Sel_FilterPackageResults
  | Sel_FindPackageResults
  | Sel_FilterKeys (exclude : gmap Key bool)
  | Sel_FindPackageTests (name : string)
  | Sel_FindByAction (action : Action)
  | Sel_FilterAction (actions : list Action)
  | Sel_WithCoverage
  | Sel_FilterNotests.

Definition select (f : Selection) (ts : TestStorage) : TestStorage :=
  match f with
  | Sel_FilterPackageResults => TestStorage_FilterPackageResults ts
  | Sel_FindPackageResults => TestStorage_FindPackageResults ts
  | Sel_FilterKeys exclude => TestStorage_FilterKeys ts exclude
  | Sel_FindPackageTests name => TestStorage_FindPackageTests ts name
  | Sel_FindByAction action => TestStorage_FindByAction ts action
  | Sel_FilterAction actions => TestStorage_FilterAction ts actions
  | Sel_WithCoverage => TestStorage_WithCoverage ts
  | Sel_FilterNotests => TestStorage_FilterNotests ts
  end.

(** The key a call is about, for the calls to [PrintDetail]. *)
Definition call_key (c : Call) : option Key :=
  match c with
  | Call_PrintDetail key _ => Some key
  | Call_PrintSummary _ _ => None
  end.

(** The events of [key] among the decoded lines, in arrival order. *)
Definition events_of (key : Key) (lines : list (option Event)) : list Event :=
  filter (λ e, Event_Key e = key) (decoded lines).

(** Whether an event asks for an immediate print under [flags]. *)
Definition triggers (flags : Flags) (e : Event) : Prop :=
  Statuses_HasAction (Flags_Results flags) (Event_Action e) = true.

(** A package that reports its coverage, with one test. *)
Definition covered : TestStorage :=
  foldl TestStorage_Append ∅
    [ ev ActionPass "a" "T1" 0 "";
      ev ActionOutput "a" "" 0 ("coverage: 87.3% of statements" +:+ nl);
      ev ActionPass "a" "" 0 "" ].

(** The statuses of the flags are statuses the program knows. *)
Definition Flags_valid (f : Flags) : Prop :=
  Forall (λ s, s ∈ AllStatuses) (Flags_Results f) ∧
  Forall (λ s, s ∈ AllStatuses) (Flags_HideEmptyResults f) ∧
  Forall (λ s, s ∈ AllStatuses) (Flags_Summary f).

(** [strings.ToLower] on a string of ASCII characters. *)
Definition ToLower_ascii (s : string) : string :=
  string_of_list_ascii
    ((λ c, let n := nat_of_ascii c in
           if (65 <=? n) && (n <=? 90) then ascii_of_nat (n + 32) else c)
       <$> list_ascii_of_string s).

(** Insertion sort on the reversed sorted prefix, as a list function: what
    the loops of [insertionSort_func] compute ([insertionSort_spec]). *)
Fixpoint insert_rev {A} (less : A → A → bool) (x : A) (rpre : list A) : list A :=
  match rpre with
  | [] => [x]
  | y :: r => if less x y then y :: insert_rev less x r else x :: y :: r
  end.

#[local] Instance triggers_dec flags e : Decision (triggers flags e).
Proof. unfold triggers. apply _. Defined.

(** What the scanning loop has done for [key] after [lines]: the store
    holds its events, it is marked printed exactly when one of them
    triggered a print, and the one call made for it came with the events up
    to the first that did. *)
Definition scan_spec (flags : Flags) (lines : list (option Event)) (key : Key)
    (st : Scan) : Prop :=
  let es := events_of key lines in
  Scan_printed st !! key =
    match list_find (triggers flags) es with
    | Some _ => Some true
    | None => None
    end ∧
  filter (λ c, call_key c = Some key) (Scan_calls st) =
    match list_find (triggers flags) es with
    | Some (i, _) => [Call_PrintDetail key (take (S i) es)]
    | None => []
    end.

(** A unit printed while scanning, and one that never ends. *)
Definition lines_two : list (option Event) :=
  [ Some (ev ActionRun "p" "T" 0 ""); Some (ev ActionFail "p" "T" 0 "");
    None; Some (ev ActionRun "p" "U" 0 "") ].

(** * Properties *)

(** ** The helpers: enough fuel, and checks on small inputs *)

Lemma strip_prefix_length p s s' :
  strip_prefix p s = Some s' →
  String.length s = String.length p + String.length s'.
Proof.
  revert s. induction p as [|a p IH]; intros s Hs; simpl in *.
  - by injection Hs as ->.
  - destruct s as [|b s]; [done|]. destruct (Ascii.eqb a b); [|done].
    simpl. f_equal. by apply IH.
Qed.

Lemma rev_app_length s1 s2 :
  String.length (String.rev_app s1 s2) = String.length s1 + String.length s2.
Proof.
  revert s2. induction s1 as [|a s1 IH]; intros s2; [done|].
  simpl. rewrite IH. simpl. lia.
Qed.

Lemma rev_length s : String.length (String.rev s) = String.length s.
Proof. unfold String.rev. rewrite rev_app_length. simpl. lia. Qed.

Lemma strip_suffix_length suf s s' :
  strip_suffix suf s = Some s' →
  String.length s = String.length suf + String.length s'.
Proof.
  unfold strip_suffix. destruct (strip_prefix _ _) as [r|] eqn:Hr; [|done].
  intros [= <-]. apply strip_prefix_length in Hr.
  rewrite !rev_length in Hr. by rewrite rev_length.
Qed.

Lemma first_some_Some {A B} (f : A → option B) (l : list A) y :
  first_some f l = Some y → ∃ x, x ∈ l ∧ f x = Some y.
Proof.
  induction l as [|x l IH]; [done|]. simpl.
  destruct (f x) as [y'|] eqn:Hx.
  - intros [= ->]. exists x. split; [left|done].
  - intros (x' & Hin & Hx')%IH. exists x'. split; [by right|done].
Qed.

Lemma space_runes_nonempty r : r ∈ space_runes → 0 < String.length r.
Proof.
  assert (Forall (λ r, 0 < String.length r) space_runes) as H.
  { apply (bool_decide_unpack _). vm_compute. exact I. }
  rewrite Forall_forall in H. apply H.
Qed.

Lemma strip_space_left_shorter s s' :
  strip_space_left s = Some s' → String.length s' < String.length s.
Proof.
  intros (r & Hr & Hs)%first_some_Some.
  apply strip_prefix_length in Hs. apply space_runes_nonempty in Hr. lia.
Qed.

Lemma strip_space_right_shorter s s' :
  strip_space_right s = Some s' → String.length s' < String.length s.
Proof.
  intros (r & Hr & Hs)%first_some_Some.
  apply strip_suffix_length in Hs. apply space_runes_nonempty in Hr. lia.
Qed.

(** With [String.length s] turns the trimming loop ends because no rune is
    left to strip, not because the fuel is spent. *)
Lemma trim_loop_done strip fuel s :
  (∀ s s', strip s = Some s' → String.length s' < String.length s) →
  String.length s ≤ fuel →
  strip (trim_loop strip fuel s) = None.
Proof.
  intros Hshort. revert s. induction fuel as [|fuel IH]; intros s Hlen; simpl.
  - destruct (strip s) as [s'|] eqn:Hs; [|done].
    apply Hshort in Hs. lia.
  - destruct (strip s) as [s'|] eqn:Hs; [|done].
    apply IH. apply Hshort in Hs. lia.
Qed.

Lemma TrimSpace_left_done s :
  strip_space_left (trim_loop strip_space_left (String.length s) s) = None.
Proof. apply trim_loop_done; [apply strip_space_left_shorter|done]. Qed.

Lemma TrimSpace_right_done s : strip_space_right (TrimSpace s) = None.
Proof. apply trim_loop_done; [apply strip_space_right_shorter|done]. Qed.

Lemma string_drop_length n s :
  String.length (string_drop n s) = String.length s - n.
Proof.
  revert s. induction n as [|n IH]; intros [|c s]; simpl; done.
Qed.

Lemma digits_le s : digits s ≤ String.length s.
Proof.
  induction s as [|c s IH]; [done|]. simpl.
  destruct (is_digit c); simpl; lia.
Qed.

(** The loop of [natural.Less] gives the same answer with any fuel that is
    at least the length of [a]: it never ends for lack of fuel. *)
Lemma natural_Less_loop_fuel fuel fuel' a b :
  String.length a ≤ fuel → String.length a ≤ fuel' →
  natural_Less_loop fuel a b = natural_Less_loop fuel' a b.
Proof.
  revert fuel' a b. induction fuel as [|fuel IH]; intros fuel' a b Hf Hf'.
  - assert (String.length (string_drop (commonPrefix a b) a) = 0) as H0
      by (rewrite string_drop_length; lia).
    destruct fuel'; simpl; by rewrite H0.
  - destruct fuel' as [|fuel'].
    { assert (String.length (string_drop (commonPrefix a b) a) = 0) as H0
        by (rewrite string_drop_length; lia).
      simpl; by rewrite H0. }
    simpl.
    set (a1 := string_drop (commonPrefix a b) a).
    set (b1 := string_drop (commonPrefix a b) b).
    destruct (String.length a1 =? 0) eqn:Hlen; [done|].
    destruct (0 <? digits a1) eqn:Hda; [|done].
    destruct (0 <? digits b1); [|done]. simpl.
    destruct (ParseUint _) as [an|]; [|done].
    destruct (ParseUint _) as [bn|]; [|done].
    destruct (negb (an =? bn)%N); [done|].
    destruct (negb _ && negb _); [|done].
    apply Nat.ltb_lt in Hda.
    assert (String.length (string_drop (digits a1) a1) < String.length a).
    { rewrite string_drop_length. pose proof (digits_le a1).
      subst a1. rewrite string_drop_length in *. lia. }
    apply IH; lia.
Qed.


Example Sprintf_2f_ex1 : Sprintf_2f 0.02 = "0.02". Proof. vm_compute. reflexivity. Qed.
Example Sprintf_2f_ex2 : Sprintf_2f 1.005 = "1.00". Proof. vm_compute. reflexivity. Qed.
Example Sprintf_2f_ex3 : Sprintf_2f 12.345 = "12.35". Proof. vm_compute. reflexivity. Qed.
Example Sprintf_2f_ex4 : Sprintf_2f 0.125 = "0.12". Proof. vm_compute. reflexivity. Qed.
Example Sprintf_2f_ex5 : Sprintf_2f 0.375 = "0.38". Proof. vm_compute. reflexivity. Qed.
Example Sprintf_2f_ex6 : Sprintf_2f (-0.001) = "-0.00". Proof. vm_compute. reflexivity. Qed.
Example Sprintf_2f_ex7 : Sprintf_2f 3 = "3.00". Proof. vm_compute. reflexivity. Qed.
Example TrimSpace_ex1 : TrimSpace (" 87.3% " +:+ nl) = "87.3%". Proof. vm_compute. reflexivity. Qed.
Example TrimSpace_ex2 : TrimSpace (bytes [194;160;32;65;226;128;128;66;10;227;128;128]) = bytes [65;226;128;128;66]. Proof. vm_compute. reflexivity. Qed.
Example pad_ex : pad_left 6 "PASS" +:+ " " = "  PASS ". Proof. reflexivity. Qed.

Example natural_Less_ex1 : natural_Less "a2" "a10" = true.
Proof. vm_compute. reflexivity. Qed.
Example natural_Less_ex2 : natural_Less "a10" "a2" = false.
Proof. vm_compute. reflexivity. Qed.
Example natural_Less_ex3 : natural_Less "a" "a.T" = true.
Proof. vm_compute. reflexivity. Qed.
Example natural_Less_ex4 : natural_Less "a-b" "a.T" = true.
Proof. vm_compute. reflexivity. Qed.
Lemma is_ending_spec a :
  is_ending a = true ↔ a ∈ [ActionFail; ActionPass; ActionSkip; ActionBench].
Proof.
  unfold is_ending. rewrite !orb_true_iff, !String.eqb_eq.
  rewrite !elem_of_cons, elem_of_nil. tauto.
Qed.

Lemma is_ending_false a :
  is_ending a = false ↔ a ∉ [ActionFail; ActionPass; ActionSkip; ActionBench].
Proof. rewrite <- is_ending_spec. by destruct (is_ending a). Qed.

(** One step of [Events.Status] in terms of [is_ending]. *)
Lemma Events_Status_cons e es :
  Events_Status (e :: es) =
    if is_ending (Event_Action e) then Event_Action e else Events_Status es.
Proof.
  unfold is_ending. simpl.
  destruct (String.eqb_spec (Event_Action e) ActionFail) as [->|]; [done|].
  destruct (String.eqb_spec (Event_Action e) ActionPass) as [->|]; [done|].
  destruct (String.eqb_spec (Event_Action e) ActionSkip) as [->|]; [done|].
  destruct (String.eqb_spec (Event_Action e) ActionBench) as [->|]; done.
Qed.

(** C2: the derived status is the status of the first event, in sequence
    order, whose action is one of fail, pass, skip, bench, and none when no
    event has such an action.  [Events_Status] is a function of the sequence
    alone, so the derivation is pure and deterministic. *)
Theorem C2_status_is_first_ending_action (es : Events) :
  Events_Status es = first_ending_status es.
Proof.
  unfold first_ending_status.
  induction es as [|e es IH]; [done|].
  rewrite Events_Status_cons. cbn [list_find].
  destruct (is_ending (Event_Action e)) eqn:He.
  - apply is_ending_spec in He. by rewrite decide_True.
  - apply is_ending_false in He. rewrite decide_False by done.
    rewrite IH. by destruct (list_find _ es) as [[]|].
Qed.

(** The same, read off the position of the first ending event. *)
Lemma Events_Status_first pre e post :
  Forall (λ x, is_ending (Event_Action x) = false) pre →
  is_ending (Event_Action e) = true →
  Events_Status (pre ++ e :: post) = Event_Action e.
Proof.
  intros Hpre He. induction Hpre as [|x pre Hx _ IH]; simpl app.
  - by rewrite Events_Status_cons, He.
  - by rewrite Events_Status_cons, Hx.
Qed.

Lemma Events_Status_none es :
  Forall (λ x, is_ending (Event_Action x) = false) es →
  Events_Status es = StatusNone.
Proof.
  induction 1 as [|x es Hx _ IH]; [done|].
  by rewrite Events_Status_cons, Hx.
Qed.

(** ** Compaction *)

(** [Compact] drops only run, cont, pause and output events. *)
Lemma Compact_drops_action f p s e :
  Compact_drops f p s e = true →
  Event_Action e ∈ [ActionRun; ActionCont; ActionPause; ActionOutput].
Proof.
  unfold Compact_drops. rewrite !orb_true_iff, !andb_true_iff, !String.eqb_eq.
  rewrite !elem_of_cons. unfold ActionRun, ActionCont, ActionPause, ActionOutput.
  tauto.
Qed.

Lemma Compact_keeps_ending f p s e :
  is_ending (Event_Action e) = true → Compact_drops f p s e = false.
Proof.
  intros He. destruct (Compact_drops f p s e) eqn:Hd; [|done].
  apply Compact_drops_action in Hd. apply is_ending_spec in He.
  rewrite !elem_of_cons, elem_of_nil in Hd, He.
  unfold ActionRun, ActionCont, ActionPause, ActionOutput,
    ActionFail, ActionPass, ActionSkip, ActionBench in *.
  destruct Hd as [Hd|[Hd|[Hd|[Hd|[]]]]]; rewrite Hd in He;
    destruct He as [?|[?|[?|[?|[]]]]]; discriminate.
Qed.

(** Filtering with a test that keeps every ending event leaves the status. *)
Lemma Events_Status_filter (P : Event → Prop) `{!∀ e, Decision (P e)}
    (es : list Event) :
  (∀ e, is_ending (Event_Action e) = true → P e) →
  Events_Status (filter P es) = Events_Status es.
Proof.
  intros HP. induction es as [|e es IH]; [done|].
  rewrite filter_cons. destruct (is_ending (Event_Action e)) eqn:He.
  - rewrite decide_True by auto. by rewrite !Events_Status_cons, He.
  - case_decide; rewrite !Events_Status_cons, ?He; done.
Qed.

(** C9: the status derived from the compacted sequence is the status derived
    from the original one, and no event whose action is fail, pass, skip or
    bench is removed by compaction. *)
Theorem C9_compact_preserves_status (es : Events) :
  Events_Status (Events_Compact es) = Events_Status es ∧
  ∀ e, e ∈ es → Event_Action e ∈ EndingActions → e ∈ Events_Compact es.
Proof.
  split.
  - apply Events_Status_filter. intros e He. by apply Compact_keeps_ending.
  - intros e Hin He. unfold Events_Compact. apply list_elem_of_filter.
    split; [|done]. apply Compact_keeps_ending, is_ending_spec.
    unfold EndingActions in He. rewrite !elem_of_cons in He |- *. tauto.
Qed.

Lemma filter_all {A} (P : A → Prop) `{!∀ x, Decision (P x)} (l : list A) :
  (∀ x, P x) → filter P l = l.
Proof.
  intros HP. induction l as [|x l IH]; [done|].
  by rewrite filter_cons, decide_True, IH.
Qed.

(** C3: the compacted sequence is a subsequence of the original one, at
    every verbosity what [PrintDetail] prints from is a subsequence of it,
    and above the verbosity threshold [V3] the events [PrintDetail] works
    with, and the events whose output it prints, are the original sequence
    unchanged. *)
Theorem C3_compact_subsequence (flags : Flags) (es : Events) :
  Events_Compact es `sublist_of` es ∧
  PrintDetail_filteredEvents flags es `sublist_of` es ∧
  ((V3 < Flags_V flags)%Z →
     PrintDetail_events flags es = es ∧
     PrintDetail_filteredEvents flags es = es).
Proof.
  split; [apply sublist_filter|]. split.
  - unfold PrintDetail_filteredEvents, PrintDetail_events.
    etrans; [apply sublist_filter|].
    case_bool_decide; [apply sublist_filter|done].
  - intros HV.
    assert (PrintDetail_events flags es = es) as Hev.
    { unfold PrintDetail_events. rewrite bool_decide_eq_false_2; [done|lia]. }
    split; [done|].
    unfold PrintDetail_filteredEvents. rewrite Hev.
    apply filter_all. intros e [? _]. lia.
Qed.

Lemma C3_witness :
  let flags := {| Flags_V := V4; Flags_Results := []; Flags_HideEmptyResults := [];
                  Flags_Summary := []; Flags_All := false |} in
  let es := [ev ActionRun "p" "T" 0 ""; ev ActionPass "p" "T" 0.02 ""] in
  PrintDetail_events flags es = es ∧
  PrintDetail_filteredEvents flags es = es.
Proof.
  intros flags es.
  apply (proj2 (proj2 (C3_compact_subsequence flags es))). reflexivity.
Defined.

(** Below the threshold the two events of a passing test are compacted
    away. *)
Example Compact_run_pass :
  Events_Compact [ev ActionRun "p" "T" 0 ""; ev ActionPass "p" "T" 0.02 ""]
  = [ev ActionPass "p" "T" 0.02 ""].
Proof. vm_compute. reflexivity. Qed.

(** The banners the test framework prints for the test are dropped too; the
    elapsed time in the result banner is that of the pass event. *)
Example Compact_banners :
  Events_Compact
    [ ev ActionRun "p" "T" 0 "";
      ev ActionOutput "p" "T" 0 ("=== RUN   T" +:+ nl);
      ev ActionOutput "p" "T" 0 ("hello" +:+ nl);
      ev ActionOutput "p" "T" 0 ("--- PASS: T (0.02s)" +:+ nl);
      ev ActionPass "p" "T" 0.02 "" ]
  = [ ev ActionOutput "p" "T" 0 ("hello" +:+ nl);
      ev ActionPass "p" "T" 0.02 "" ].
Proof. vm_compute. reflexivity. Qed.

(** ** Store filters *)

Lemma existsb_action_singleton (es : list Event) (a : Action) :
  existsb (λ e, bool_decide (Event_Action e ∈ [a])) es
  = existsb (λ e, String.eqb (Event_Action e) a) es.
Proof.
  induction es as [|e es IH]; [done|]. simpl. rewrite IH. f_equal.
  destruct (String.eqb_spec (Event_Action e) a) as [->|Hne].
  - apply bool_decide_eq_true_2. by apply list_elem_of_singleton.
  - apply bool_decide_eq_false_2. by rewrite list_elem_of_singleton.
Qed.

(** C7: filtering out an action set twice is filtering it out once; and for
    one action the units with the action and the units without it split the
    key set of the store. *)
Theorem C7_filter_idempotent_complement (ts : TestStorage) (A : list Action) (a : Action) :
  TestStorage_FilterAction (TestStorage_FilterAction ts A) A
    = TestStorage_FilterAction ts A ∧
  dom (TestStorage_FindByAction ts a) ∩ dom (TestStorage_FilterAction ts [a]) = ∅ ∧
  dom (TestStorage_FindByAction ts a) ∪ dom (TestStorage_FilterAction ts [a]) = dom ts.
Proof.
  split; [|split].
  - unfold TestStorage_FilterAction. rewrite map_filter_filter.
    apply map_filter_ext. intros k es _. simpl. tauto.
  - apply set_eq. intros k.
    rewrite elem_of_intersection, !elem_of_dom, elem_of_empty.
    unfold TestStorage_FindByAction, TestStorage_FilterAction.
    split; [|done].
    intros [[es1 H1] [es2 H2]].
    apply map_lookup_filter_Some in H1 as [H1 P1].
    apply map_lookup_filter_Some in H2 as [H2 P2]. simpl in *.
    rewrite H1 in H2. injection H2 as <-.
    rewrite existsb_action_singleton in P2. congruence.
  - apply set_eq. intros k. rewrite elem_of_union, !elem_of_dom.
    unfold TestStorage_FindByAction, TestStorage_FilterAction.
    split.
    + intros [[es H]|[es H]]; apply map_lookup_filter_Some in H as [H _]; eauto.
    + intros [es H].
      destruct (existsb (λ e, String.eqb (Event_Action e) a) es) eqn:Hex.
      * left. exists es. by apply map_lookup_filter_Some.
      * right. exists es. apply map_lookup_filter_Some. split; [done|].
        simpl. by rewrite existsb_action_singleton.
Qed.

(** ** The scanning phase prints a unit at most once *)

Lemma scan_inv_init : scan_inv Scan_init.
Proof. split; [constructor|]. intros key Hk. inversion Hk. Qed.

Lemma scan_step_inv flags st line :
  scan_inv st → scan_inv (scan_step flags st line).
Proof.
  intros [Hnd Hmark]. destruct line as [e|]; [|done]. unfold scan_step.
  destruct (negb (default false (Scan_printed st !! Event_Key e)) &&
            Statuses_HasAction (Flags_Results flags) (Event_Action e)) eqn:Hc;
    [|done].
  apply andb_true_iff in Hc as [Hnew _]. apply negb_true_iff in Hnew.
  split; simpl; unfold detail_keys in *; rewrite omap_app; simpl.
  - apply NoDup_app. split; [done|]. split; [|apply NoDup_singleton].
    intros key Hk Hk'. apply list_elem_of_singleton in Hk' as ->.
    apply Hmark in Hk. by rewrite Hk in Hnew.
  - intros key [Hk|Hk]%elem_of_app.
    + destruct (decide (Event_Key e = key)) as [->|Hne].
      * apply lookup_insert_eq.
      * rewrite lookup_insert_ne by done. by apply Hmark.
    + apply list_elem_of_singleton in Hk as ->. apply lookup_insert_eq.
Qed.

Lemma run_scan_inv flags lines : scan_inv (run_scan flags lines).
Proof.
  unfold run_scan. generalize scan_inv_init. generalize Scan_init.
  induction lines as [|line lines IH]; intros st Hst; [done|].
  simpl. apply IH. by apply scan_step_inv.
Qed.

Lemma NoDup_count_le_1 (key : Key) (l : list Key) :
  NoDup l → length (filter (λ k, k = key) l) ≤ 1.
Proof.
  induction 1 as [|k l Hk _ IH]; [simpl; lia|].
  rewrite filter_cons. case_decide as Heq; [|done]. subst k. simpl.
  assert (filter (λ k, k = key) l = []) as ->; [|simpl; lia].
  destruct (filter (λ k, k = key) l) as [|k' l'] eqn:Hf; [done|].
  assert (k' ∈ filter (λ k, k = key) l) as Hin by (rewrite Hf; left).
  apply list_elem_of_filter in Hin as [-> Hin]. done.
Qed.

(** C5: in one run of the scanning loop every key has at most one immediate
    detail print, whatever the lines that arrive; and once a key is marked
    printed, an event for that key triggers no further print. *)
Theorem C5_at_most_one_immediate_print (flags : Flags)
    (lines : list (option Event)) (key : Key) :
  length (filter (λ k, k = key) (detail_keys (Scan_calls (run_scan flags lines)))) ≤ 1 ∧
  ∀ st e, Scan_printed st !! Event_Key e = Some true →
          Scan_calls (scan_step flags st (Some e)) = Scan_calls st ∧
          Scan_printed (scan_step flags st (Some e)) = Scan_printed st.
Proof.
  split.
  - apply NoDup_count_le_1, run_scan_inv.
  - intros st e Hp. unfold scan_step. by rewrite Hp.
Qed.

(** A second fail event for a key that was printed prints nothing more. *)
Example scan_twice :
  let flags := {| Flags_V := V0; Flags_Results := [StatusFail; StatusNone];
                  Flags_HideEmptyResults := []; Flags_Summary := [];
                  Flags_All := false |} in
  let e := ev ActionFail "p" "T" 0 "" in
  detail_keys (Scan_calls (run_scan flags [Some e; None; Some e; Some e]))
  = [Event_Key e].
Proof. vm_compute. reflexivity. Qed.

(** ** Exit status *)

(** C8: when the supervised process exits with a status other than zero,
    [run] returns it as an [ExitError] and [main] exits with that status. *)
Theorem C8_exit_status_propagated (exitCode : Z) :
  exitCode ≠ 0%Z →
  run_return (Wait_ExitError true exitCode) = Some (ExitError exitCode) ∧
  main_exit (run_return (Wait_ExitError true exitCode)) = exitCode ∧
  main_exit (run_return (Wait_ExitError true exitCode)) ≠ main_exit (run_return Wait_ok).
Proof. intros Hne. simpl. done. Qed.

Lemma C8_witness :
  run_return (Wait_ExitError true 2) = Some (ExitError 2) ∧
  main_exit (run_return (Wait_ExitError true 2)) = 2%Z ∧
  main_exit (run_return (Wait_ExitError true 2)) ≠ main_exit (run_return Wait_ok).
Proof. apply (C8_exit_status_propagated 2). discriminate. Defined.

(** ** The skip summary and packages without tests *)

(** What flags a unit as a package without tests. *)
Lemma Events_IsPackageWithoutTest_spec (es : Events) :
  Events_IsPackageWithoutTest es = true ↔
  ∃ e, e ∈ es ∧ Event_Action e = ActionOutput ∧ Event_Package e ≠ "" ∧
       Event_Test e = "" ∧
       HasSuffix (TrimLeft_space (Event_Output e)) ("[no test files]" +:+ nl) = true.
Proof.
  unfold Events_IsPackageWithoutTest. rewrite existsb_exists.
  split; intros (e & Hin & H); exists e.
  - apply list_elem_of_In in Hin.
    rewrite !andb_true_iff, negb_true_iff, !String.eqb_eq, String.eqb_neq in H.
    tauto.
  - split; [by apply list_elem_of_In|].
    rewrite !andb_true_iff, negb_true_iff, !String.eqb_eq, String.eqb_neq.
    tauto.
Qed.

(** The calls of the summary loop for the skip status: at most one, on the
    units with a skip event, without the flagged ones up to [V3]. *)
Lemma run_summary_skip flags tests :
  run_summary flags tests StatusSkip =
    let filtered := summary_filtered flags tests ActionSkip in
    if 0 <? size filtered then [Call_PrintSummary filtered StatusSkip] else [].
Proof.
  unfold run_summary. simpl. by rewrite app_nil_r.
Qed.

Lemma Call_in_run_summary_skip flags tests filtered :
  Call_PrintSummary filtered StatusSkip ∈ run_summary flags tests StatusSkip ↔
  filtered = summary_filtered flags tests ActionSkip ∧ filtered ≠ ∅.
Proof.
  rewrite run_summary_skip. cbv zeta.
  destruct (0 <? size (summary_filtered flags tests ActionSkip)) eqn:Hs.
  - apply Nat.ltb_lt in Hs. rewrite list_elem_of_singleton. split.
    + intros [= ->]. split; [done|]. intros Hempty. rewrite Hempty in Hs.
      rewrite map_size_empty in Hs. lia.
    + by intros [-> _].
  - apply Nat.ltb_ge in Hs. rewrite elem_of_nil. split; [done|].
    intros [-> Hne]. apply Hne, map_size_empty_iff. lia.
Qed.

(** A summary call carries the status of the turn of the loop it was made
    in. *)
Lemma run_summary_status flags tests status filtered s :
  Call_PrintSummary filtered s ∈ run_summary flags tests status → s = status.
Proof.
  unfold run_summary. destruct (String.eqb status StatusNone).
  - destruct (0 <? size _); [|by rewrite elem_of_nil].
    rewrite list_elem_of_singleton. by intros [= _ ->].
  - simpl. rewrite app_nil_r, !elem_of_app.
    intros Hin.
    repeat match type of Hin with
           | _ ∨ _ => destruct Hin as [Hin|Hin]
           end;
      (destruct (Status_IsAction status _); [|by apply elem_of_nil in Hin]);
      (destruct (0 <? size _); [|by apply elem_of_nil in Hin]);
      apply list_elem_of_singleton in Hin; by injection Hin as _ ->.
Qed.

(** The calls of the whole summary loop. *)
Lemma run_summaries_elem_of flags tests c :
  c ∈ run_summaries flags tests ↔
  0 < size tests ∧
  ∃ status, status ∈ Flags_Summary flags ∧ c ∈ run_summary flags tests status.
Proof.
  unfold run_summaries. destruct (0 <? size tests) eqn:Hs.
  - apply Nat.ltb_lt in Hs. rewrite list_elem_of_In, in_concat. split.
    + intros (l & Hl & Hc). split; [done|].
      apply list_elem_of_In, list_elem_of_fmap in Hl as (status & -> & Hst).
      exists status. by rewrite list_elem_of_In.
    + intros (_ & status & Hst & Hc).
      exists (run_summary flags tests status).
      split; [|by apply list_elem_of_In].
      apply list_elem_of_In, list_elem_of_fmap. by exists status.
  - apply Nat.ltb_ge in Hs. rewrite elem_of_nil. split; [done|]. lia.
Qed.

Lemma string_app_assoc (a b c : string) : (a +:+ b) +:+ c = a +:+ (b +:+ c).
Proof.
  induction a as [|x a IH]; [done|].
  change (String x ((a +:+ b) +:+ c) = String x (a +:+ b +:+ c)).
  by rewrite IH.
Qed.

Lemma string_app_nil_r (a : string) : a +:+ "" = a.
Proof.
  induction a as [|x a IH]; [done|].
  change (String x (a +:+ "") = String x a). by rewrite IH.
Qed.

(** What [strip_prefix] and [strip_suffix] compute. *)
Lemma strip_prefix_Some p s r : strip_prefix p s = Some r ↔ s = p +:+ r.
Proof.
  revert s. induction p as [|a p IH]; intros s; simpl.
  - split; [by intros [= ->]|by intros ->].
  - destruct s as [|b s]; [done|].
    destruct (Ascii.eqb_spec a b) as [->|Hab].
    + rewrite IH. split; [by intros ->|by intros [= ->]].
    + split; [done|]. intros [= ? _]. done.
Qed.

Lemma string_rev_app_spec s1 s2 :
  String.rev_app s1 s2 = String.rev_app s1 "" +:+ s2.
Proof.
  revert s2. induction s1 as [|a s1 IH]; intros s2; [done|].
  cbn [String.rev_app]. rewrite (IH (String a s2)), (IH (String a "")).
  by rewrite string_app_assoc.
Qed.

Lemma string_rev_cons a s :
  String.rev (String a s) = String.rev s +:+ String a "".
Proof. unfold String.rev. cbn [String.rev_app]. apply string_rev_app_spec. Qed.

Lemma string_rev_append s1 s2 :
  String.rev (s1 +:+ s2) = String.rev s2 +:+ String.rev s1.
Proof.
  induction s1 as [|a s1 IH].
  - change ("" +:+ s2) with s2. change (String.rev "") with "".
    by rewrite string_app_nil_r.
  - change (String a s1 +:+ s2) with (String a (s1 +:+ s2)).
    rewrite !string_rev_cons, IH. by rewrite string_app_assoc.
Qed.

Lemma string_rev_involutive s : String.rev (String.rev s) = s.
Proof.
  induction s as [|a s IH]; [done|].
  rewrite string_rev_cons, string_rev_append, IH. done.
Qed.

Lemma strip_suffix_Some suf s r : strip_suffix suf s = Some r ↔ s = r +:+ suf.
Proof.
  unfold strip_suffix. rewrite fmap_Some. split.
  - intros (x & Hx%strip_prefix_Some & ->).
    rewrite <- (string_rev_involutive s), Hx, string_rev_append.
    by rewrite string_rev_involutive.
  - intros ->. exists (String.rev r). split.
    + apply strip_prefix_Some. apply string_rev_append.
    + by rewrite string_rev_involutive.
Qed.

(** [strings.HasSuffix]: the string ends in the suffix. *)
Lemma HasSuffix_spec s suf : HasSuffix s suf = true ↔ ∃ pre, s = pre +:+ suf.
Proof.
  unfold HasSuffix. rewrite bool_decide_eq_true. unfold is_Some.
  split; intros [r Hr]; exists r; by apply strip_suffix_Some.
Qed.

(** Dropping the leading spaces does not change whether the text ends in a
    suffix that starts with another byte. *)
Lemma HasSuffix_TrimLeft_space s c suf :
  c ≠ " "%char →
  HasSuffix (TrimLeft_space s) (String c suf) = true ↔
  HasSuffix s (String c suf) = true.
Proof.
  intros Hc. induction s as [|b s IH]; [done|]. simpl.
  destruct (Ascii.eqb_spec b " "%char) as [->|Hb]; [|done].
  rewrite IH, !HasSuffix_spec. split.
  - intros [pre ->]. by exists (String " "%char pre).
  - intros [[|a pre] Hpre]; simpl in Hpre.
    + injection Hpre as ? _. by subst c.
    + injection Hpre as _ ->. by exists pre.
Qed.

(** The test of [IsPackageWithoutTest] is the flag of the specification. *)
Lemma Events_IsPackageWithoutTest_flagged (es : Events) :
  Events_IsPackageWithoutTest es = true ↔ flagged_without_tests es.
Proof.
  rewrite Events_IsPackageWithoutTest_spec.
  unfold flagged_without_tests, no_test_files_event.
  change ("[no test files]" +:+ nl) with (String "["%char ("no test files]" +:+ nl)).
  split; intros (e & Hin & Ha & Hp & Ht & Hs); exists e;
    (split; [done|]); (split; [done|]); (split; [done|]); (split; [done|]).
  - by apply HasSuffix_spec, HasSuffix_TrimLeft_space.
  - by apply HasSuffix_TrimLeft_space, HasSuffix_spec.
Qed.

(** C10: in the end-of-run summaries, up to verbosity 3 the store printed
    for the skip status holds exactly the units with a skip event whose
    sequence contains no package-level output event ending in
    [[no test files]]: every unit flagged as a package without tests is left
    out of it.  From verbosity 4 on, when the skip summary is asked for,
    every unit with a skip event, flagged or not, is in the store printed
    for it. *)
Theorem C10_skip_summary_hides_notests (flags : Flags) (tests : TestStorage) :
  ((Flags_V flags ≤ 3)%Z →
     ∀ filtered key es,
       Call_PrintSummary filtered StatusSkip ∈ run_summaries flags tests →
       (filtered !! key = Some es ↔
        tests !! key = Some es ∧ has_action ActionSkip es = true ∧
        ¬ flagged_without_tests es)) ∧
  ((4 ≤ Flags_V flags)%Z →
     StatusSkip ∈ Flags_Summary flags →
     ∀ key es,
       tests !! key = Some es → has_action ActionSkip es = true →
       ∃ filtered,
         Call_PrintSummary filtered StatusSkip ∈ run_summaries flags tests ∧
         filtered !! key = Some es).
Proof.
  split.
  - intros HV filtered key es (_ & status & _ & Hc)%run_summaries_elem_of.
    pose proof (run_summary_status _ _ _ _ _ Hc) as <-.
    apply Call_in_run_summary_skip in Hc as [-> _].
    unfold summary_filtered. simpl.
    rewrite bool_decide_eq_true_2 by (unfold V3; lia).
    unfold TestStorage_FilterNotests, TestStorage_FindByAction.
    rewrite !map_lookup_filter_Some. simpl.
    rewrite <- Events_IsPackageWithoutTest_flagged, not_true_iff_false.
    unfold has_action. tauto.
  - intros HV Hsum key es Hk Hskip.
    assert (summary_filtered flags tests ActionSkip !! key = Some es) as Hin.
    { unfold summary_filtered. simpl.
      rewrite bool_decide_eq_false_2 by (unfold V3; lia).
      by apply map_lookup_filter_Some. }
    eexists. split; [|exact Hin].
    apply run_summaries_elem_of. split.
    + destruct (decide (size tests = 0)) as [H0|]; [|lia].
      apply map_size_empty_iff in H0. subst tests.
      by rewrite lookup_empty in Hk.
    + exists StatusSkip. split; [done|].
      apply Call_in_run_summary_skip. split; [done|].
      intros Hempty. rewrite Hempty in Hin. by rewrite lookup_empty in Hin.
Qed.

(** Up to verbosity 3 the units with a skip event that are left out are
    exactly the flagged ones. *)
Lemma skip_summary_low_verbosity flags tests key es :
  (Flags_V flags ≤ 3)%Z →
  tests !! key = Some es → has_action ActionSkip es = true →
  Events_IsPackageWithoutTest es = false →
  summary_filtered flags tests ActionSkip !! key = Some es.
Proof.
  intros HV Hk Hskip Hflag. unfold summary_filtered. simpl.
  rewrite bool_decide_eq_true_2 by (unfold V3; lia).
  apply map_lookup_filter_Some. split; [|done].
  by apply map_lookup_filter_Some.
Qed.

(** ** Ordered keys and the summaries *)

Section SortFacts.
Context {A : Type} (less : A → A → bool).

Lemma Swap_Permutation (data : list A) i j : Swap data i j ≡ₚ data.
Proof.
  unfold Swap. destruct (data !! i) as [x|] eqn:Hi; [|done].
  destruct (data !! j) as [y|] eqn:Hj; [|done].
  by apply Permutation_insert_swap.
Qed.

Lemma insertion_inner_Permutation a j (data : list A) :
  insertion_inner less a j data ≡ₚ data.
Proof.
  revert data. induction j as [|j IH]; intros data; [done|].
  simpl. destruct (_ && _); [|done].
  by rewrite IH, Swap_Permutation.
Qed.

Lemma insertionSort_Permutation a b (data : list A) :
  insertionSort less a b data ≡ₚ data.
Proof.
  unfold insertionSort. generalize (seq (a + 1) (b - (a + 1))).
  intros idx. revert data. induction idx as [|i idx IH]; intros data; [done|].
  simpl. by rewrite IH, insertion_inner_Permutation.
Qed.

Lemma SliceStable_Permutation (data : list A) :
  SliceStable less data ≡ₚ data.
Proof. apply insertionSort_Permutation. Qed.
End SortFacts.

(** [OrderedKeys] lists every key of the store once. *)
Lemma range_order_elem_of ts tks key :
  range_order ts tks → key ∈ tks ↔ is_Some (ts !! key).
Proof.
  intros [_ Hset]. rewrite <- elem_of_dom, <- Hset. by rewrite elem_of_list_to_set.
Qed.

Lemma OrderedKeys_range_order ts tks :
  range_order ts tks → range_order ts (TestStorage_OrderedKeys tks).
Proof.
  intros [Hnd Hset]. unfold TestStorage_OrderedKeys.
  pose proof (SliceStable_Permutation OrderedKeys_less tks) as Hp.
  split.
  - by rewrite Hp.
  - rewrite <- Hset. apply set_eq. intros k.
    by rewrite !elem_of_list_to_set, Hp.
Qed.

Example scenario_range_order : range_order scenario [kA; kT2; kT1].
Proof. apply (bool_decide_unpack _). vm_compute. exact I. Qed.

(** Whatever the order in which the map is ranged over, the keys come out
    as [a.T1], [a.T2], [a]. *)
Example scenario_OrderedKeys tks :
  range_order scenario tks → TestStorage_OrderedKeys tks = [kT1; kT2; kA].
Proof.
  intros [Hnd Hset].
  assert (tks ≡ₚ [kA; kT2; kT1]) as Hp.
  { apply NoDup_Permutation; [done| |].
    - apply (bool_decide_unpack _). vm_compute. exact I.
    - intros k. rewrite <- (elem_of_list_to_set (C := gset Key)), Hset.
      rewrite <- (elem_of_list_to_set (C := gset Key) k [kA; kT2; kT1]).
      assert (dom scenario = list_to_set [kA; kT2; kT1]) as ->; [|done].
      apply (bool_decide_unpack _). vm_compute. exact I. }
  symmetry in Hp. apply permutations_Permutation in Hp.
  vm_compute in Hp.
  repeat (apply elem_of_cons in Hp as [->|Hp]; [vm_compute; reflexivity|]).
  inversion Hp.
Qed.





(** On the scenario the short summary shows [<2 tests>] for package [a]. *)
Example scenario_short_summary :
  TestStorage_PrintShortSummary plain scenario StatusPass [kA]
  = Some [ hr_text +:+ " PASS " +:+ hr_text +:+ nl;
           "  PASS a   <2 tests>" +:+ nl ].
Proof. vm_compute. reflexivity. Qed.


(** ** Coverage extraction *)

Lemma FindCoverage_loop_cons e es :
  FindCoverage_loop (e :: es) =
    if is_coverage_line e then coverage_of e else FindCoverage_loop es.
Proof.
  unfold is_coverage_line, coverage_of. simpl.
  destruct (String.eqb (Event_Action e) ActionOutput); [|done].
  simpl. by destruct (_ && _).
Qed.

Lemma FindCoverage_loop_first pre e post :
  Forall (λ x, is_coverage_line x = false) pre →
  is_coverage_line e = true →
  FindCoverage_loop (pre ++ e :: post) = coverage_of e.
Proof.
  intros Hpre He. induction Hpre as [|x pre Hx _ IH]; simpl app.
  - by rewrite FindCoverage_loop_cons, He.
  - by rewrite FindCoverage_loop_cons, Hx.
Qed.

Lemma FindCoverage_loop_none es :
  Forall (λ x, is_coverage_line x = false) es → FindCoverage_loop es = "".
Proof.
  induction 1 as [|x es Hx _ IH]; [done|].
  by rewrite FindCoverage_loop_cons, Hx.
Qed.

Lemma FindCoverage_cases es :
  Events_FindCoverage es = "" ∨ Events_FindCoverage es = FindCoverage_loop es.
Proof.
  destruct es as [|e0 es]; [by left|]. unfold Events_FindCoverage.
  destruct (_ || _); [by left|by right].
Qed.

(** C6 (amended): for a unit of a package with a non-empty name whose first
    coverage line has the trimmed text [coverage: 87.3% of statements],
    coverage extraction returns [87.3%]; and for a sequence without an output
    line that has the coverage prefix and the [of statements] suffix it
    returns the empty string. *)
Theorem C6_coverage_extraction :
  (∀ (pre post : Events) (e : Event),
     Forall (λ x, Event_Package x ≠ "" ∧ Event_Test x = "") (pre ++ e :: post) →
     Forall (λ x, is_coverage_line x = false) pre →
     Event_Action e = ActionOutput →
     TrimSpace (Event_Output e) = "coverage: 87.3% of statements" →
     Events_FindCoverage (pre ++ e :: post) = "87.3%") ∧
  (∀ es : Events,
     (∀ e, e ∈ es → Event_Action e = ActionOutput →
           ¬ (HasPrefix (TrimSpace (Event_Output e)) "coverage: " = true ∧
              HasSuffix (TrimSpace (Event_Output e)) " of statements" = true)) →
     Events_FindCoverage es = "").
Proof.
  split.
  - intros pre post e Hunit Hpre Hact Hout.
    assert (is_coverage_line e = true) as He.
    { unfold is_coverage_line. rewrite Hact, Hout. reflexivity. }
    assert (coverage_of e = "87.3%") as Hcov.
    { unfold coverage_of. rewrite Hout. vm_compute. reflexivity. }
    rewrite <- Hcov, <- (FindCoverage_loop_first pre e post Hpre He).
    unfold Events_FindCoverage.
    destruct (pre ++ e :: post) as [|e0 es] eqn:Hes; [by destruct pre|].
    apply Forall_cons in Hunit as [[Hp Ht] _].
    apply String.eqb_neq in Hp. apply String.eqb_eq in Ht.
    by rewrite Hp, Ht.
  - intros es Hno. destruct (FindCoverage_cases es) as [->| ->]; [done|].
    apply FindCoverage_loop_none, Forall_forall. intros e Hin.
    unfold is_coverage_line.
    destruct (String.eqb_spec (Event_Action e) ActionOutput) as [Hact|]; [|done].
    specialize (Hno e Hin Hact). simpl.
    destruct (HasPrefix _ _), (HasSuffix _ _); try done.
    exfalso. by apply Hno.
Qed.

(** [WithCoverage] keeps the units of named packages that report a
    coverage. *)
Lemma WithCoverage_lookup (ts : TestStorage) key es :
  TestStorage_WithCoverage ts !! key = Some es ↔
  ts !! key = Some es ∧ Key_Test key = "" ∧ Key_Package key ≠ "" ∧
  Events_FindCoverage es ≠ "".
Proof.
  unfold TestStorage_WithCoverage. rewrite map_lookup_filter_Some. simpl.
  destruct (decide (Key_Test key = "")), (decide (Key_Package key = "")); tauto.
Qed.

Lemma C6_witness :
  let e0 := ev ActionOutput "a" "" 0 ("ok" +:+ nl) in
  let e := ev ActionOutput "a" "" 0 ("coverage: 87.3% of statements" +:+ nl) in
  Events_FindCoverage ([e0] ++ e :: [e0]) = "87.3%".
Proof.
  intros e0 e. apply (proj1 C6_coverage_extraction [e0] [e0] e).
  - repeat constructor; discriminate.
  - repeat constructor.
  - reflexivity.
  - vm_compute. reflexivity.
Defined.

(** C6 (as stated) fails: a sequence can contain the line
    [coverage: 87.3% of statements] after another coverage line, and the
    first one is what is returned; and the unit of the empty package name has
    no coverage. *)
Lemma C6_counterexample :
  let e1 := ev ActionOutput "a" "" 0 ("coverage: 50.0% of statements" +:+ nl) in
  let e2 := ev ActionOutput "a" "" 0 ("coverage: 87.3% of statements" +:+ nl) in
  let e3 := ev ActionOutput "" "" 0 ("coverage: 87.3% of statements" +:+ nl) in
  (e2 ∈ [e1; e2] ∧ Event_Test e1 = "" ∧ Event_Test e2 = "" ∧
   Event_Action e2 = ActionOutput ∧
   TrimSpace (Event_Output e2) = "coverage: 87.3% of statements" ∧
   Events_FindCoverage [e1; e2] = "50.0%") ∧
  (Event_Test e3 = "" ∧ Event_Action e3 = ActionOutput ∧
   TrimSpace (Event_Output e3) = "coverage: 87.3% of statements" ∧
   Events_FindCoverage [e3] = "").
Proof.
  intros e1 e2 e3. split.
  - split; [right; left|]. repeat split; vm_compute; reflexivity.
  - repeat split; vm_compute; reflexivity.
Qed.

(** ** The order of [OrderedKeys] can depend on the order of the range *)

(** The comparison of [OrderedKeys] is cyclic on these keys: [a] is before
    [a-b] and [a-b] before [a.T] in natural order, and the tie-break puts
    [a.T] before [a]. *)
Example OrderedKeys_less_cycle :
  OrderedKeys_less kP kQ = true ∧ OrderedKeys_less kQ kPT = true ∧
  OrderedKeys_less kPT kP = true.
Proof. repeat split; vm_compute; reflexivity. Qed.

(** C4 fails on the code: two ranges over the same store give two different
    orders, and in the first the package-level key [a] comes before the test
    key [a.T] of the same package. *)
Theorem C4_order_depends_on_range :
  range_order two_packages [kP; kQ; kPT] ∧
  range_order two_packages [kQ; kPT; kP] ∧
  TestStorage_OrderedKeys [kP; kQ; kPT] = [kP; kQ; kPT] ∧
  TestStorage_OrderedKeys [kQ; kPT; kP] = [kQ; kPT; kP] ∧
  TestStorage_OrderedKeys [kP; kQ; kPT] ≠ TestStorage_OrderedKeys [kQ; kPT; kP].
Proof.
  split; [apply (bool_decide_unpack _); vm_compute; exact I|].
  split; [apply (bool_decide_unpack _); vm_compute; exact I|].
  split; [vm_compute; reflexivity|].
  split; [vm_compute; reflexivity|].
  vm_compute. discriminate.
Qed.

(** [PrintSummary] prints a header and one line for every unit of the store
    it is called on. *)
Lemma PrintSummary_lines pal ts status tks c :
  statusColors pal status = Some c →
  range_order ts tks →
  ∃ header,
    TestStorage_PrintSummary pal ts status tks
      = Some (header :: (PrintSummary_line pal c status ts <$> TestStorage_OrderedKeys tks)) ∧
    NoDup (TestStorage_OrderedKeys tks) ∧
    ∀ key, key ∈ TestStorage_OrderedKeys tks ↔ is_Some (ts !! key).
Proof.
  intros Hc Hro. unfold TestStorage_PrintSummary. rewrite Hc. simpl.
  eexists. split; [reflexivity|].
  pose proof (OrderedKeys_range_order _ _ Hro) as Hro'.
  split; [apply Hro'|]. intros key. by apply range_order_elem_of.
Qed.

Example skipped_low :
  Events_IsPackageWithoutTest es_q = true ∧
  dom (summary_filtered (flags_at V3) skipped ActionSkip) = {[ k_rT ]}.
Proof.
  split; [vm_compute; reflexivity|].
  apply (bool_decide_unpack _). vm_compute. exact I.
Qed.

Example skipped_high :
  dom (summary_filtered (flags_at V4) skipped ActionSkip) = {[ k_q; k_rT ]}.
Proof. apply (bool_decide_unpack _). vm_compute. exact I. Qed.

Lemma C10_witness :
  (flagged_without_tests es_q ∧
   skipped !! k_q = Some es_q ∧ has_action ActionSkip es_q = true ∧
   summary_filtered (flags_at V3) skipped ActionSkip !! k_q ≠ Some es_q ∧
   summary_filtered (flags_at V3) skipped ActionSkip !! k_rT = Some es_rT) ∧
  (∃ filtered,
     Call_PrintSummary filtered StatusSkip ∈ run_summaries (flags_at V4) skipped ∧
     filtered !! k_q = Some es_q).
Proof.
  assert (flagged_without_tests es_q) as Hflag.
  { exists (ev ActionOutput "q" "" 0
              ("?   " +:+ tab +:+ "q" +:+ tab +:+ "[no test files]" +:+ nl)).
    split; [left|]. split; [done|]. split; [done|]. split; [done|].
    exists ("?   " +:+ tab +:+ "q" +:+ tab). vm_compute. reflexivity. }
  assert (Call_PrintSummary (summary_filtered (flags_at V3) skipped ActionSkip)
            StatusSkip ∈ run_summaries (flags_at V3) skipped) as Hcall.
  { apply run_summaries_elem_of. split; [vm_compute; lia|].
    exists StatusSkip. split; [left|].
    apply Call_in_run_summary_skip. split; [done|].
    intros Hempty.
    assert (summary_filtered (flags_at V3) skipped ActionSkip !! k_rT = Some es_rT)
      as Hk by (vm_compute; reflexivity).
    rewrite Hempty in Hk. by rewrite lookup_empty in Hk. }
  pose proof (proj1 (C10_skip_summary_hides_notests (flags_at V3) skipped)
                ltac:(vm_compute; discriminate)) as Hlow.
  split; [split; [exact Hflag|]; split; [vm_compute; reflexivity|];
          split; [vm_compute; reflexivity|]; split|].
  - intros Hq. apply (Hlow _ k_q es_q Hcall) in Hq as (_ & _ & Hnot). by apply Hnot.
  - apply (Hlow _ k_rT es_rT Hcall).
    split; [vm_compute; reflexivity|]. split; [vm_compute; reflexivity|].
    rewrite <- Events_IsPackageWithoutTest_flagged. vm_compute. discriminate.
  - apply (proj2 (C10_skip_summary_hides_notests (flags_at V4) skipped)
             ltac:(vm_compute; discriminate) ltac:(left) k_q es_q).
    + vm_compute. reflexivity.
    + vm_compute. reflexivity.
Defined.

Lemma C5_witness :
  let flags := flags_at V0 in
  let e := ev ActionFail "p" "T" 0 "" in
  let st := run_scan flags [Some e] in
  Scan_calls (scan_step flags st (Some e)) = Scan_calls st ∧
  Scan_printed (scan_step flags st (Some e)) = Scan_printed st.
Proof.
  intros flags e st.
  apply (proj2 (C5_at_most_one_immediate_print flags [] (Event_Key e)) st e).
  vm_compute. reflexivity.
Defined.

Lemma C9_witness :
  let e := ev ActionPass "p" "T" 0.02 "" in
  let es := [ev ActionRun "p" "T" 0 ""; e; ev ActionRun "p" "T" 0 ""] in
  e ∈ Events_Compact es.
Proof.
  intros e es. apply (proj2 (C9_compact_preserves_status es) e).
  - right; left.
  - right; right; left.
Defined.

(** * More properties of the program *)

(** ** Actions and statuses *)

Ltac pick_disjunct := repeat first [left; reflexivity | right].

Lemma Status_IsAction_spec s a :
  Status_IsAction s a = true ↔ s = a ∧ a ∈ EndingActions.
Proof.
  unfold Status_IsAction, EndingActions.
  rewrite !elem_of_cons, elem_of_nil.
  unfold StatusBench, StatusPass, StatusFail, StatusSkip.
  destruct (String.eqb_spec a ActionBench) as [->|Hb];
    [rewrite String.eqb_eq; split;
       [intros ->; split; [done|pick_disjunct]|by intros [-> _]]|].
  destruct (String.eqb_spec a ActionPass) as [->|Hp];
    [rewrite String.eqb_eq; split;
       [intros ->; split; [done|pick_disjunct]|by intros [-> _]]|].
  destruct (String.eqb_spec a ActionFail) as [->|Hf];
    [rewrite String.eqb_eq; split;
       [intros ->; split; [done|pick_disjunct]|by intros [-> _]]|].
  destruct (String.eqb_spec a ActionSkip) as [->|Hs];
    [rewrite String.eqb_eq; split;
       [intros ->; split; [done|pick_disjunct]|by intros [-> _]]|].
  split; [done|]. intros [_ H]. tauto.
Qed.

Lemma Action_IsStatus_spec a s :
  Action_IsStatus a s = true ↔ s = a ∧ a ∈ EndingActions.
Proof.
  unfold Action_IsStatus, EndingActions.
  rewrite !elem_of_cons, elem_of_nil.
  unfold StatusBench, StatusPass, StatusFail, StatusSkip.
  destruct (String.eqb_spec s ActionBench) as [->|Hb];
    [rewrite String.eqb_eq; split;
       [intros ->; split; [done|pick_disjunct]|by intros [-> _]]|].
  destruct (String.eqb_spec s ActionPass) as [->|Hp];
    [rewrite String.eqb_eq; split;
       [intros ->; split; [done|pick_disjunct]|by intros [-> _]]|].
  destruct (String.eqb_spec s ActionFail) as [->|Hf];
    [rewrite String.eqb_eq; split;
       [intros ->; split; [done|pick_disjunct]|by intros [-> _]]|].
  destruct (String.eqb_spec s ActionSkip) as [->|Hs];
    [rewrite String.eqb_eq; split;
       [intros ->; split; [done|pick_disjunct]|by intros [-> _]]|].
  split; [done|]. intros [-> H]. tauto.
Qed.

(** X1: [Status.IsAction] and [Action.IsStatus] are the same test seen from
    both sides: each holds exactly when the status and the action have the
    same name and that name is one of fail, skip, pass, bench.  The status
    none matches no action, and run, pause, cont and output match no
    status. *)
Theorem X1_IsAction_IsStatus (s : Status) (a : Action) :
  Status_IsAction s a = Action_IsStatus a s ∧
  (Status_IsAction s a = true ↔ s = a ∧ a ∈ EndingActions) ∧
  Status_IsAction StatusNone a = false ∧
  (a ∈ [ActionRun; ActionPause; ActionCont; ActionOutput] →
   Status_IsAction s a = false).
Proof.
  split; [|split; [apply Status_IsAction_spec|split]].
  - apply eq_true_iff_eq. by rewrite Status_IsAction_spec, Action_IsStatus_spec.
  - apply not_true_is_false. rewrite Status_IsAction_spec.
    intros [<- H]. unfold EndingActions in H.
    rewrite !elem_of_cons, elem_of_nil in H.
    destruct H as [H|[H|[H|[H|[]]]]]; discriminate.
  - intros Ha. apply not_true_is_false. rewrite Status_IsAction_spec.
    intros [_ H]. unfold EndingActions in H.
    rewrite !elem_of_cons, elem_of_nil in Ha, H.
    destruct Ha as [->|[->|[->|[->|[]]]]];
      destruct H as [H|[H|[H|[H|[]]]]]; discriminate.
Qed.

Lemma Statuses_HasAction_spec ss a :
  Statuses_HasAction ss a = true ↔ a ∈ ss ∧ a ∈ EndingActions.
Proof.
  unfold Statuses_HasAction. rewrite existsb_exists. split.
  - intros (s & Hin & [-> He]%Status_IsAction_spec).
    by apply list_elem_of_In in Hin.
  - intros [Hin He]. exists a. split; [by apply list_elem_of_In|].
    by apply Status_IsAction_spec.
Qed.

(** X2: among the statuses to show, an action triggers a print exactly when
    it is an ending action whose own name is listed; listing none makes no
    action trigger one. *)
Theorem X2_HasAction (ss : Statuses) (a : Action) :
  (Statuses_HasAction ss a = true ↔ a ∈ ss ∧ a ∈ EndingActions) ∧
  Statuses_HasAction [StatusNone] a = false ∧
  Statuses_HasAction [] a = false.
Proof.
  split; [apply Statuses_HasAction_spec|]. split; [|done].
  apply not_true_is_false. rewrite Statuses_HasAction_spec.
  intros [Hin He]. apply list_elem_of_singleton in Hin as ->.
  unfold EndingActions in He. rewrite !elem_of_cons, elem_of_nil in He.
  destruct He as [H|[H|[H|[H|[]]]]]; discriminate.
Qed.

Lemma Events_Status_cases es :
  Events_Status es = StatusNone ∧
    Forall (λ x, is_ending (Event_Action x) = false) es ∨
  Events_Status es ∈ EndingActions ∧
    ∃ e, e ∈ es ∧ Event_Action e = Events_Status es.
Proof.
  induction es as [|e es IH]; [left; by split|].
  rewrite Events_Status_cons.
  destruct (is_ending (Event_Action e)) eqn:He.
  - right. split.
    + apply is_ending_spec in He. unfold EndingActions.
      rewrite !elem_of_cons in He |- *. tauto.
    + exists e. split; [left|done].
  - destruct IH as [[Hn Hall]|[Hin (e' & He' & Ha)]].
    + left. split; [done|]. by constructor.
    + right. split; [done|]. exists e'. split; [by right|done].
Qed.

Lemma Events_Status_none_iff es :
  Events_Status es = StatusNone ↔
  ∀ e, e ∈ es → Event_Action e ∉ EndingActions.
Proof.
  split.
  - intros Hnone e He Hend.
    destruct (Events_Status_cases es) as [[_ Hall]|[H _]].
    + rewrite Forall_forall in Hall. specialize (Hall e He).
      apply is_ending_false in Hall. apply Hall.
      unfold EndingActions in Hend. rewrite !elem_of_cons in Hend |- *. tauto.
    + rewrite Hnone in H. unfold EndingActions in H.
      rewrite !elem_of_cons, elem_of_nil in H.
      destruct H as [H|[H|[H|[H|[]]]]]; discriminate.
  - intros Hno. apply Events_Status_none, Forall_forall. intros e He.
    apply is_ending_false. intros Hend. apply (Hno e He).
    unfold EndingActions. rewrite !elem_of_cons in Hend |- *. tauto.
Qed.

(** X3: the derived status is always one of the five statuses, so the
    tables of names and colours have an entry for it; and it is none exactly
    when no event has an ending action. *)
Theorem X3_status_in_tables (pal : Palette) (es : Events) :
  Events_Status es ∈ AllStatuses ∧
  statusNames (Events_Status es) ≠ "" ∧
  is_Some (statusColors pal (Events_Status es)) ∧
  is_Some (statusColorsBold pal (Events_Status es)) ∧
  (Events_Status es = StatusNone ↔
   ∀ e, e ∈ es → Event_Action e ∉ EndingActions).
Proof.
  assert (Events_Status es ∈ AllStatuses) as Hin.
  { destruct (Events_Status_cases es) as [[-> _]|[H _]].
    - unfold AllStatuses. rewrite !elem_of_cons. tauto.
    - unfold AllStatuses, EndingActions in *.
      rewrite !elem_of_cons, elem_of_nil in H. rewrite !elem_of_cons.
      unfold StatusBench, StatusPass, StatusSkip, StatusFail. tauto. }
  split; [done|].
  assert (∀ s, s ∈ AllStatuses →
    statusNames s ≠ "" ∧ is_Some (statusColors pal s) ∧
    is_Some (statusColorsBold pal s)) as Htab.
  { intros s Hs. unfold AllStatuses in Hs.
    rewrite !elem_of_cons, elem_of_nil in Hs.
    destruct Hs as [->|[->|[->|[->|[->|[]]]]]]; by repeat split. }
  destruct (Htab _ Hin) as (Hn1 & Hn2 & Hn3). repeat split; try done.
  - intros Hnone e He Hend.
    destruct (Events_Status_cases es) as [[_ Hall]|[H _]].
    + rewrite Forall_forall in Hall. specialize (Hall e He).
      apply is_ending_false in Hall. apply Hall.
      unfold EndingActions in Hend. rewrite !elem_of_cons in Hend |- *. tauto.
    + rewrite Hnone in H. unfold EndingActions in H.
      rewrite !elem_of_cons, elem_of_nil in H.
      destruct H as [H|[H|[H|[H|[]]]]]; discriminate.
  - intros Hno. apply Events_Status_none, Forall_forall. intros e He.
    apply is_ending_false. intros Hend. apply (Hno e He).
    unfold EndingActions. rewrite !elem_of_cons in Hend |- *. tauto.
Qed.

Lemma Events_Status_app es es' :
  Events_Status (es ++ es') =
    if bool_decide (Events_Status es = StatusNone)
    then Events_Status es' else Events_Status es.
Proof.
  induction es as [|e es IH]; [done|].
  simpl app. rewrite !Events_Status_cons.
  destruct (is_ending (Event_Action e)) eqn:He; [|done].
  rewrite bool_decide_eq_false_2; [done|].
  apply is_ending_spec in He. rewrite !elem_of_cons, elem_of_nil in He.
  intros Hn. rewrite Hn in He.
  destruct He as [H|[H|[H|[H|[]]]]]; discriminate.
Qed.

(** X4: once a sequence has a status other than none, events that arrive
    later never change it; as long as it is none, the status is that of
    what arrives. *)
Theorem X4_status_prefix_stable (es es' : Events) :
  Events_Status (es ++ es') =
    if bool_decide (Events_Status es = StatusNone)
    then Events_Status es' else Events_Status es.
Proof. apply Events_Status_app. Qed.

(** ** Compaction, coverage and the no-tests flag *)

Lemma Events_FindFirstByAction_cons e (es : Events) actions :
  Events_FindFirstByAction (e :: es) actions =
    if decide (Event_Action e ∈ actions) then Some e
    else Events_FindFirstByAction es actions.
Proof.
  unfold Events_FindFirstByAction. cbn [list_find].
  case_decide; [done|]. by destruct (list_find _ es) as [[]|].
Qed.

Lemma Events_FindFirstByAction_filter (P : Event → Prop)
    `{!∀ e, Decision (P e)} (es : list Event) actions :
  (∀ e, Event_Action e ∈ actions → P e) →
  Events_FindFirstByAction (filter P es) actions
  = Events_FindFirstByAction es actions.
Proof.
  intros HP. induction es as [|e es IH]; [done|].
  rewrite filter_cons, (Events_FindFirstByAction_cons e es).
  destruct (decide (Event_Action e ∈ actions)) as [Hin|Hnin].
  - rewrite decide_True by auto.
    by rewrite Events_FindFirstByAction_cons, decide_True.
  - case_decide; [|done].
    by rewrite Events_FindFirstByAction_cons, decide_False.
Qed.

Lemma filter_idemp {A} (P : A → Prop) `{!∀ x, Decision (P x)} (l : list A) :
  filter P (filter P l) = filter P l.
Proof.
  induction l as [|x l IH]; [done|].
  rewrite filter_cons. case_decide; [|done].
  by rewrite filter_cons, decide_True, IH.
Qed.

Lemma first_elapsed_Compact es a :
  is_ending a = true →
  first_elapsed (Events_Compact es) a = first_elapsed es a.
Proof.
  intros Ha. unfold first_elapsed, Events_Compact.
  rewrite Events_FindFirstByAction_filter; [done|].
  intros e He%list_elem_of_singleton. apply Compact_keeps_ending.
  by rewrite He.
Qed.

(** X5: compaction is idempotent: compacting a compacted sequence changes
    nothing, the elapsed times the banners are compared with being those of
    the same first pass, fail and skip events. *)
Theorem X5_Compact_idempotent (es : Events) :
  Events_Compact (Events_Compact es) = Events_Compact es.
Proof.
  unfold Events_Compact at 1.
  rewrite !first_elapsed_Compact by done.
  unfold Events_Compact. apply filter_idemp.
Qed.

Lemma strip_prefix_app p q s r :
  strip_prefix (p +:+ q) s = Some r → strip_prefix p s = Some (q +:+ r).
Proof.
  revert s. induction p as [|a p IH]; intros s; simpl.
  - revert s. induction q as [|b q IHq]; intros s; simpl.
    + by intros [= ->].
    + destruct s as [|c s]; [done|].
      destruct (Ascii.eqb_spec b c) as [->|]; [|done].
      intros H. apply IHq in H. simpl in H. injection H as ->. done.
  - destruct s as [|c s]; [done|]. destruct (Ascii.eqb a c); [|done]. apply IH.
Qed.

Lemma HasPrefix_app s p q : HasPrefix s (p +:+ q) = true → HasPrefix s p = true.
Proof.
  unfold HasPrefix. rewrite !bool_decide_eq_true.
  intros [r Hr]. apply strip_prefix_app in Hr. eauto.
Qed.

Lemma HasSuffix_of_statements s :
  HasSuffix s " of statements" = true → HasSuffix s "of statements" = true.
Proof.
  unfold HasSuffix, strip_suffix. rewrite !bool_decide_eq_true.
  rewrite !fmap_is_Some.
  change (String.rev " of statements")
    with (String.rev "of statements" +:+ " ").
  intros [r Hr]. apply strip_prefix_app in Hr. eauto.
Qed.

Lemma Compact_drops_notests f p s e :
  String.eqb (Event_Action e) "output" &&
    negb (String.eqb (Event_Package e) "") && String.eqb (Event_Test e) "" &&
    HasSuffix (TrimLeft_space (Event_Output e)) ("[no test files]" +:+ nl) = true →
  Compact_drops f p s e = true.
Proof.
  unfold Compact_drops. rewrite !andb_true_iff. intros [[[Ha Hp] Ht] Hs].
  rewrite Ha, Hp, Ht, Hs. simpl. rewrite !orb_true_r. done.
Qed.

Lemma Compact_drops_coverage f p s e :
  Event_Package e ≠ "" → Event_Test e = "" →
  is_coverage_line e = true → Compact_drops f p s e = true.
Proof.
  unfold is_coverage_line, Compact_drops.
  intros Hp%String.eqb_neq Ht%String.eqb_eq.
  rewrite !andb_true_iff. intros (Ha & Hpre & Hsuf).
  apply (HasPrefix_app _ "coverage:" " ") in Hpre.
  apply HasSuffix_of_statements in Hsuf.
  unfold ActionOutput in Ha. rewrite Ha, Hp, Ht, Hpre, Hsuf. simpl.
  rewrite !orb_true_r. done.
Qed.

(** X6: compaction removes the lines the summary tags are read from: a
    compacted sequence is never flagged as a package without tests, and for
    a unit (events of one key) it reports no coverage.  This is why
    [PrintDetail] reads both from the sequence before compaction. *)
Theorem X6_Compact_erases_tags (es : Events) :
  Events_IsPackageWithoutTest (Events_Compact es) = false ∧
  ((∃ key, Forall (λ e, Event_Key e = key) es) →
   Events_FindCoverage (Events_Compact es) = "").
Proof.
  split.
  - apply not_true_is_false. unfold Events_IsPackageWithoutTest.
    rewrite existsb_exists. intros (e & Hin & He).
    apply list_elem_of_In in Hin. unfold Events_Compact in Hin.
    apply list_elem_of_filter in Hin as [Hkeep _].
    by rewrite Compact_drops_notests in Hkeep.
  - intros [key Hkey].
    destruct (FindCoverage_cases (Events_Compact es)) as [->|Heq]; [done|].
    assert (Events_FindCoverage (Events_Compact es) = ""
            ∨ key = {| Key_Package := Key_Package key; Key_Test := "" |}
              ∧ Key_Package key ≠ "") as [->|[Hk Hp]]; [|done|].
    { destruct (Events_Compact es) as [|e0 l] eqn:Hc; [by left|].
      assert (e0 ∈ es) as Hin.
      { assert (e0 ∈ Events_Compact es) as H by (rewrite Hc; left).
        by apply list_elem_of_filter in H as [_ ?]. }
      rewrite Forall_forall in Hkey. specialize (Hkey e0 Hin).
      unfold Events_FindCoverage.
      destruct (String.eqb_spec (Event_Package e0) "") as [|Hp0]; [by left|].
      destruct (String.eqb_spec (Event_Test e0) "") as [Ht0|]; [|by left].
      right. subst key. unfold Event_Key. simpl. by rewrite Ht0. }
    rewrite Heq. apply FindCoverage_loop_none, Forall_forall.
    intros e Hin. unfold Events_Compact in Hin.
    apply list_elem_of_filter in Hin as [Hkeep Hin].
    rewrite Forall_forall in Hkey. specialize (Hkey e Hin).
    destruct (is_coverage_line e) eqn:Hcov; [|done].
    rewrite Compact_drops_coverage in Hkeep; [done| | |done].
    + rewrite <- Hkey in Hp. done.
    + rewrite Hk in Hkey. by injection Hkey as _ ->.
Qed.

Lemma X6_witness :
  let es := [ ev ActionOutput "a" "" 0 ("coverage: 87.3% of statements" +:+ nl);
              ev ActionPass "a" "" 0 "" ] in
  Events_FindCoverage es = "87.3%" ∧
  Events_FindCoverage (Events_Compact es) = "".
Proof.
  intros es. split; [vm_compute; reflexivity|].
  apply (proj2 (X6_Compact_erases_tags es)).
  exists kA. repeat constructor.
Defined.

Lemma FindCoverage_loop_app es es' :
  FindCoverage_loop (es ++ es') =
    if existsb is_coverage_line es then FindCoverage_loop es
    else FindCoverage_loop es'.
Proof.
  induction es as [|e es IH]; [done|].
  simpl app. rewrite !FindCoverage_loop_cons. simpl existsb.
  by destruct (is_coverage_line e).
Qed.

Lemma FindCoverage_loop_nonempty es :
  FindCoverage_loop es ≠ "" → existsb is_coverage_line es = true.
Proof.
  intros Hne. destruct (existsb is_coverage_line es) eqn:Hex; [done|].
  exfalso. apply Hne, FindCoverage_loop_none, Forall_forall.
  intros e Hin. destruct (is_coverage_line e) eqn:He; [|done].
  assert (existsb is_coverage_line es = true); [|congruence].
  apply existsb_exists. exists e. split; [by apply list_elem_of_In|done].
Qed.

(** X7: the tags of a unit only ever grow with the events that arrive: a
    coverage that was found stays the same whatever is appended, and the
    flag of a package without tests, once set, stays set. *)
Theorem X7_tags_stable (es es' : Events) :
  (Events_FindCoverage es ≠ "" →
   Events_FindCoverage (es ++ es') = Events_FindCoverage es) ∧
  Events_IsPackageWithoutTest (es ++ es')
  = Events_IsPackageWithoutTest es || Events_IsPackageWithoutTest es'.
Proof.
  split.
  - destruct es as [|e0 es]; [done|]. simpl app. unfold Events_FindCoverage.
    destruct (_ || _); [done|]. intros Hne.
    change (e0 :: es ++ es') with ((e0 :: es) ++ es').
    by rewrite FindCoverage_loop_app, FindCoverage_loop_nonempty.
  - unfold Events_IsPackageWithoutTest. apply existsb_app.
Qed.

Lemma X7_witness :
  let es := [ ev ActionOutput "a" "" 0 ("coverage: 87.3% of statements" +:+ nl) ] in
  let es' := [ ev ActionOutput "a" "" 0 ("coverage: 50.0% of statements" +:+ nl) ] in
  Events_FindCoverage (es ++ es') = Events_FindCoverage es.
Proof.
  intros es es'. apply (proj1 (X7_tags_stable es es')).
  vm_compute. discriminate.
Defined.

(** ** The unit store *)

Lemma TestStorage_Append_lookup ts e key :
  TestStorage_Append ts e !! key =
    if decide (key = Event_Key e)
    then Some (default [] (ts !! key) ++ [e])
    else ts !! key.
Proof.
  unfold TestStorage_Append. case_decide as Hk.
  - subst key. apply lookup_insert_eq.
  - by rewrite lookup_insert_ne.
Qed.

Lemma store_wf_Append ts e : store_wf ts → store_wf (TestStorage_Append ts e).
Proof.
  intros Hwf key es. rewrite TestStorage_Append_lookup.
  case_decide as Hk.
  - intros [= <-]. split; [by destruct (default [] (ts !! key))|].
    apply Forall_app. split; [|by repeat constructor].
    destruct (ts !! key) as [old|] eqn:Hold; [|constructor].
    by apply (Hwf key old).
  - apply Hwf.
Qed.

(** X8: appending an event never removes a unit and never removes or
    reorders the events of one: every sequence of the store is a prefix of
    its sequence afterwards, the event is the last one under its own key,
    and the sequences stay non-empty, each with events of its key only. *)
Theorem X8_Append_extends (ts : TestStorage) (e : Event) :
  (∀ key es, ts !! key = Some es →
     ∃ es', TestStorage_Append ts e !! key = Some es' ∧ es `prefix_of` es') ∧
  (∃ old, TestStorage_Append ts e !! Event_Key e = Some (old ++ [e]) ∧
          old = default [] (ts !! Event_Key e)) ∧
  (∀ key, key ≠ Event_Key e → TestStorage_Append ts e !! key = ts !! key) ∧
  (store_wf ts → store_wf (TestStorage_Append ts e)).
Proof.
  split; [|split; [|split]].
  - intros key es Hk. rewrite TestStorage_Append_lookup. case_decide.
    + eexists. split; [done|]. rewrite Hk. simpl. by apply prefix_app_r.
    + by exists es.
  - eexists. split; [|done]. by rewrite TestStorage_Append_lookup, decide_True.
  - intros key Hk. by rewrite TestStorage_Append_lookup, decide_False.
  - apply store_wf_Append.
Qed.

Lemma run_scan_snoc flags lines line :
  run_scan flags (lines ++ [line]) = scan_step flags (run_scan flags lines) line.
Proof. unfold run_scan. by rewrite foldl_snoc. Qed.

Lemma scan_step_tests flags st line :
  Scan_tests (scan_step flags st line) =
    match line with
    | Some e => TestStorage_Append (Scan_tests st) e
    | None => Scan_tests st
    end.
Proof. destruct line as [e|]; [|done]. unfold scan_step. by destruct (_ && _). Qed.

Lemma run_scan_tests_lookup flags lines key :
  Scan_tests (run_scan flags lines) !! key =
    match filter (λ e, Event_Key e = key) (decoded lines) with
    | [] => None
    | es => Some es
    end.
Proof.
  induction lines as [|line lines IH] using rev_ind; [done|].
  rewrite run_scan_snoc, scan_step_tests. unfold decoded in *.
  rewrite omap_app, filter_app. destruct line as [e|]; simpl.
  - rewrite TestStorage_Append_lookup, IH. rewrite filter_cons, filter_nil.
    destruct (decide (Event_Key e = key)) as [<-|Hne].
    + rewrite decide_True by done.
      by destruct (filter _ (omap id lines)).
    + rewrite decide_False by done. by rewrite app_nil_r.
  - by rewrite app_nil_r.
Qed.

(** X9: after the scanning loop the store holds, under every key, exactly
    the decoded events of that key in arrival order, and no key without
    events: no event is lost, duplicated or reordered, lines that fail to
    decode leave no trace, and the flags have no influence on the store. *)
Theorem X9_scan_groups_by_key (flags : Flags) (lines : list (option Event))
    (key : Key) :
  Scan_tests (run_scan flags lines) !! key =
    match filter (λ e, Event_Key e = key) (decoded lines) with
    | [] => None
    | es => Some es
    end ∧
  store_wf (Scan_tests (run_scan flags lines)).
Proof.
  split; [apply run_scan_tests_lookup|].
  intros k es. rewrite run_scan_tests_lookup.
  destruct (filter _ (decoded lines)) as [|e l] eqn:Hf; [done|].
  intros [= <-]. split; [done|].
  apply Forall_forall. intros x Hx. rewrite <- Hf in Hx.
  by apply list_elem_of_filter in Hx as [? _].
Qed.

(** Every selection keeps the units that pass a test of the key and the
    events, and nothing else. *)
Lemma select_is_filter (f : Selection) :
  ∃ (P : Key * Events → Prop) (dec : ∀ kv, Decision (P kv)),
    ∀ ts : TestStorage, select f ts = filter P ts.
Proof. destruct f; simpl; eexists _, _; intros ts; reflexivity. Qed.

(** X10: the selecting operations of the store ([FilterPackageResults],
    [FindPackageResults], [FilterKeys], [FindPackageTests], [FindByAction],
    [FilterAction], [WithCoverage], [FilterNotests]) never add a unit and
    never change the events of one; each is idempotent, and any two of them
    give the same store in either order. *)
Theorem X10_selections_compose (f g : Selection) (ts : TestStorage) :
  (∀ key es, select f ts !! key = Some es → ts !! key = Some es) ∧
  select f (select f ts) = select f ts ∧
  select f (select g ts) = select g (select f ts).
Proof.
  destruct (select_is_filter f) as (P & dP & HP).
  destruct (select_is_filter g) as (Q & dQ & HQ).
  rewrite !HP, !HQ. split; [|split].
  - intros key es Hk. by apply map_lookup_filter_Some in Hk as [? _].
  - rewrite map_filter_filter. apply map_filter_ext. intros; tauto.
  - apply map_filter_comm.
Qed.

(** X11: the package-level units and the test units split the store: every
    unit is in exactly one of [FindPackageResults] and
    [FilterPackageResults], and [CountTests] plus the number of package
    units is the number of units. *)
Theorem X11_packages_and_tests (ts : TestStorage) :
  TestStorage_FilterPackageResults ts ∪ TestStorage_FindPackageResults ts = ts ∧
  TestStorage_FilterPackageResults ts ##ₘ TestStorage_FindPackageResults ts ∧
  TestStorage_CountTests ts + size (TestStorage_FindPackageResults ts) = size ts.
Proof.
  assert (TestStorage_FindPackageResults ts
          = filter (λ kv : Key * Events, ¬ Key_Test kv.1 ≠ "") ts) as Heq.
  { unfold TestStorage_FindPackageResults. apply map_filter_ext.
    intros key es _. simpl. destruct (decide (Key_Test key = "")); tauto. }
  assert (TestStorage_FilterPackageResults ts ##ₘ TestStorage_FindPackageResults ts)
    as Hdisj.
  { rewrite Heq. apply map_disjoint_filter_complement. }
  assert (TestStorage_FilterPackageResults ts ∪ TestStorage_FindPackageResults ts = ts)
    as Hun.
  { rewrite Heq. apply map_filter_union_complement. }
  split; [done|]. split; [done|].
  unfold TestStorage_CountTests.
  rewrite <- map_size_disj_union by done. by rewrite Hun.
Qed.

Lemma TestStorage_Union_snoc ts values v :
  TestStorage_Union ts (values ++ [v]) = v ∪ TestStorage_Union ts values.
Proof. unfold TestStorage_Union. by rewrite foldl_snoc. Qed.

(** X12: [Union] returns the stores given as arguments copied over each
    other in order, so the entry of a key is that of the last argument that
    has the key; the store it is called on is not part of the result, and
    without arguments the result is empty. *)
Theorem X12_Union_last_wins (ts : TestStorage) (values : list TestStorage)
    (key : Key) :
  TestStorage_Union ts values !! key = last (omap (λ v, v !! key) values) ∧
  TestStorage_Union ts [] = ∅ ∧
  TestStorage_Union ts [ts] = ts.
Proof.
  split; [|split].
  - induction values as [|v values IH] using rev_ind; [done|].
    rewrite TestStorage_Union_snoc, omap_app. simpl.
    destruct (v !! key) as [es|] eqn:Hv.
    + rewrite last_snoc. by apply lookup_union_Some_l.
    + rewrite app_nil_r, lookup_union_r by done. apply IH.
  - done.
  - unfold TestStorage_Union. simpl. apply (right_id_L ∅ (∪)).
Qed.

(** ** The scanning loop *)

Lemma events_of_snoc key lines line :
  events_of key (lines ++ [line]) =
    events_of key lines ++
    match line with
    | Some e => if decide (Event_Key e = key) then [e] else []
    | None => []
    end.
Proof.
  unfold events_of, decoded. rewrite omap_app, filter_app.
  destruct line as [e|]; [|done]. simpl. rewrite filter_cons, filter_nil.
  by case_decide.
Qed.

Lemma run_scan_spec flags lines key :
  scan_spec flags lines key (run_scan flags lines).
Proof.
  induction lines as [|line lines IH] using rev_ind; [done|].
  unfold scan_spec in *. cbv zeta in *.
  rewrite run_scan_snoc, events_of_snoc.
  destruct IH as [IHp IHc].
  destruct line as [e|]; [|by rewrite app_nil_r].
  pose proof (run_scan_tests_lookup flags lines (Event_Key e)) as Htests.
  fold (events_of (Event_Key e) lines) in Htests.
  unfold scan_step.
  destruct (decide (Event_Key e = key)) as [Hk|Hk].
  - subst key. destruct (list_find (triggers flags) _) as [[i x]|] eqn:Hfind.
    + rewrite IHp. simpl.
      pose proof Hfind as Hlt. apply list_find_Some in Hlt as (Hlt & _ & _).
      apply lookup_lt_Some in Hlt.
      rewrite (list_find_app_l _ _ _ _ _ Hfind).
      rewrite take_app_le by lia. done.
    + rewrite IHp. simpl. rewrite list_find_app_r by done. simpl.
      destruct (Statuses_HasAction _ _) eqn:Htrig; simpl.
      * rewrite decide_True by done. simpl.
        rewrite lookup_insert_eq, filter_app, IHc, filter_cons, filter_nil.
        rewrite decide_True by done. simpl.
        split; [done|]. do 2 f_equal.
        rewrite TestStorage_Append_lookup, decide_True by done.
        rewrite Htests, take_ge by (rewrite length_app; simpl; lia).
        by destruct (events_of _ lines).
      * rewrite decide_False by (unfold triggers; congruence). done.
  - rewrite app_nil_r.
    destruct (_ && _); simpl; [|done].
    rewrite lookup_insert_ne by done.
    rewrite filter_app, filter_cons, filter_nil.
    rewrite decide_False by (simpl; intros [= ?]; done). by rewrite app_nil_r.
Qed.

(** X13: what the scanning loop prints for a key is decided by the events of
    that key alone: if none of them has an ending action listed in the
    results to show, nothing is printed and the key is not marked; otherwise
    the key is marked and there is exactly one call, made on the events of
    the key up to and including the first such event. *)
Theorem X13_scan_prints_at_first_trigger (flags : Flags)
    (lines : list (option Event)) (key : Key) :
  let es := events_of key lines in
  let st := run_scan flags lines in
  Scan_printed st !! key =
    match list_find (triggers flags) es with
    | Some _ => Some true
    | None => None
    end ∧
  filter (λ c, call_key c = Some key) (Scan_calls st) =
    match list_find (triggers flags) es with
    | Some (i, _) => [Call_PrintDetail key (take (S i) es)]
    | None => []
    end.
Proof. apply run_scan_spec. Qed.

(** ** The rest of the run *)

Lemma run_summary_elem_of flags tests status c :
  c ∈ run_summary flags tests status →
  ∃ filtered,
    c = Call_PrintSummary filtered status ∧ filtered ≠ ∅ ∧
    (status = StatusNone ∧
       filtered = TestStorage_FilterAction tests EndingActions ∨
     status ∈ EndingActions ∧
       filtered = summary_filtered flags tests status).
Proof.
  assert (∀ m : TestStorage, (0 <? size m) = true → m ≠ ∅) as Hne.
  { intros m Hs%Nat.ltb_lt ->. rewrite map_size_empty in Hs. lia. }
  unfold run_summary.
  destruct (String.eqb_spec status StatusNone) as [->|Hnone].
  - destruct (0 <? size _) eqn:Hs; [|by rewrite elem_of_nil].
    intros ->%list_elem_of_singleton. eexists. split; [done|].
    split; [by apply Hne|]. by left.
  - simpl. rewrite app_nil_r, !elem_of_app.
    intros Hin.
    repeat match type of Hin with
           | _ ∨ _ => destruct Hin as [Hin|Hin]
           end;
      (match type of Hin with
       | context [Status_IsAction status ?a] =>
           destruct (Status_IsAction status a) eqn:Hact;
             [apply Status_IsAction_spec in Hact as [-> Hend]
             |by apply elem_of_nil in Hin]
       end);
      (destruct (0 <? size _) eqn:Hs; [|by apply elem_of_nil in Hin]);
      apply list_elem_of_singleton in Hin as ->;
      (eexists; split; [done|]; split; [by apply Hne|by right]).
Qed.

Lemma detail_keys_summaries flags tests :
  detail_keys (run_summaries flags tests) = [].
Proof.
  assert (∀ l, (∀ c, c ∈ l → call_key c = None) → detail_keys l = []) as Hnil.
  { induction l as [|c l IH]; [done|]. intros Hall. unfold detail_keys in *.
    simpl. pose proof (Hall c ltac:(left)) as Hc. destruct c; [done|].
    apply IH. intros c' Hc'. apply Hall. by right. }
  apply Hnil. intros c (_ & status & _ & Hc)%run_summaries_elem_of.
  by apply run_summary_elem_of in Hc as (filtered & -> & _).
Qed.

Lemma run_none_fold (tests : TestStorage) (keys : list Key) (calls : list Call)
    (printed : gmap Key bool) :
  (foldl (λ acc key,
            (acc.1 ++ [Call_PrintDetail key (default [] (tests !! key))],
             <[key := true]> acc.2))
         (calls, printed) keys).1
  = calls ++ ((λ key, Call_PrintDetail key (default [] (tests !! key))) <$> keys).
Proof.
  revert calls printed. induction keys as [|key keys IH]; intros calls printed.
  - by rewrite app_nil_r.
  - simpl. rewrite IH. by rewrite <- app_assoc.
Qed.

Lemma run_none_keys flags tests printed tks :
  detail_keys (run_none flags tests printed tks).1 =
    if (0 <? size tests) && Statuses_Any (Flags_Results flags) [StatusNone]
    then TestStorage_OrderedKeys tks else [].
Proof.
  unfold run_none. destruct (_ && _); [|done].
  rewrite run_none_fold. simpl.
  induction (TestStorage_OrderedKeys tks) as [|k l IH]; [done|].
  rewrite fmap_cons.
  change (k :: detail_keys
            ((λ key, Call_PrintDetail key (default [] (tests !! key))) <$> l)
          = k :: l).
  by rewrite IH.
Qed.

Lemma FilterAction_lookup_Status tests key es :
  TestStorage_FilterAction tests EndingActions !! key = Some es ↔
  tests !! key = Some es ∧ Events_Status es = StatusNone.
Proof.
  unfold TestStorage_FilterAction. rewrite map_lookup_filter_Some. simpl.
  assert (existsb (λ e, bool_decide (Event_Action e ∈ EndingActions)) es = false
          ↔ Events_Status es = StatusNone) as ->; [|done].
  rewrite Events_Status_none_iff.
  rewrite <- not_true_iff_false, existsb_exists. split.
  - intros Hno e He Hend. apply Hno. exists e.
    split; [by apply list_elem_of_In|by apply bool_decide_eq_true].
  - intros Hno (e & He & Hend). apply list_elem_of_In in He.
    apply bool_decide_eq_true in Hend. by apply (Hno e).
Qed.

Lemma run_noneTests_lookup tests printed key es :
  run_noneTests tests printed !! key = Some es ↔
  tests !! key = Some es ∧ printed !! key ≠ Some true ∧
  Events_Status es = StatusNone.
Proof.
  unfold run_noneTests. rewrite FilterAction_lookup_Status.
  unfold TestStorage_FilterKeys. rewrite map_lookup_filter_Some. simpl.
  assert (default false (printed !! key) = false ↔ printed !! key ≠ Some true)
    as ->; [|tauto].
  destruct (printed !! key) as [[]|]; simpl; split; congruence.
Qed.

(** X14: over the whole run, scanning and the pass over the pending units
    together, [PrintDetail] is called at most once for a key; and with none
    among the results to show that pass prints exactly the units that have
    no ending action and were not printed while scanning. *)
Theorem X14_whole_run_prints_once (flags : Flags)
    (lines : list (option Event)) (tks : list Key) :
  range_order (run_noneTests (Scan_tests (run_scan flags lines))
                             (Scan_printed (run_scan flags lines))) tks →
  NoDup (detail_keys (run_calls flags lines tks)) ∧
  ∀ key,
    key ∈ detail_keys (run_none flags (Scan_tests (run_scan flags lines))
                          (Scan_printed (run_scan flags lines)) tks).1 ↔
    Statuses_Any (Flags_Results flags) [StatusNone] = true ∧
    Scan_printed (run_scan flags lines) !! key ≠ Some true ∧
    ∃ es, Scan_tests (run_scan flags lines) !! key = Some es ∧
          Events_Status es = StatusNone.
Proof.
  set (st := run_scan flags lines). intros Hro.
  pose proof (OrderedKeys_range_order _ _ Hro) as Hro'.
  assert (∀ key, key ∈ TestStorage_OrderedKeys tks ↔
            Scan_printed st !! key ≠ Some true ∧
            ∃ es, Scan_tests st !! key = Some es ∧ Events_Status es = StatusNone)
    as Hkeys.
  { intros key. rewrite (range_order_elem_of _ _ key Hro'). unfold is_Some.
    setoid_rewrite run_noneTests_lookup. split.
    - intros (es & ? & ? & ?). eauto.
    - intros (? & es & ? & ?). eauto. }
  assert (∀ key,
    key ∈ detail_keys (run_none flags (Scan_tests st) (Scan_printed st) tks).1 ↔
    Statuses_Any (Flags_Results flags) [StatusNone] = true ∧
    Scan_printed st !! key ≠ Some true ∧
    ∃ es, Scan_tests st !! key = Some es ∧ Events_Status es = StatusNone)
    as Hnone.
  { intros key. rewrite run_none_keys.
    destruct (0 <? size (Scan_tests st)) eqn:Hs; simpl.
    - destruct (Statuses_Any _ _); [rewrite Hkeys; tauto|].
      rewrite elem_of_nil. split; [done|]. by intros [? _].
    - rewrite elem_of_nil. split; [done|]. intros (_ & _ & es & Hes & _).
      apply Nat.ltb_ge in Hs.
      assert (Scan_tests st = ∅) as Hempty by (apply map_size_empty_iff; lia).
      rewrite Hempty in Hes. by rewrite lookup_empty in Hes. }
  split; [|done].
  unfold run_calls. fold st. unfold detail_keys. rewrite !omap_app.
  fold (detail_keys (Scan_calls st)).
  fold (detail_keys (run_none flags (Scan_tests st) (Scan_printed st) tks).1).
  fold (detail_keys (run_summaries flags (Scan_tests st))).
  rewrite detail_keys_summaries, app_nil_r.
  destruct (run_scan_inv flags lines) as [Hnd Hmark]. fold st in Hnd, Hmark.
  apply NoDup_app. split; [done|]. split.
  - intros key Hscan Hn. apply Hnone in Hn as (_ & Hp & _).
    by apply Hmark in Hscan.
  - rewrite run_none_keys. destruct (_ && _); [apply Hro'|constructor].
Qed.

Lemma X14_witness :
  NoDup (detail_keys (run_calls (flags_at V0) lines_two
                        [{| Key_Package := "p"; Key_Test := "U" |}])).
Proof.
  apply (X14_whole_run_prints_once (flags_at V0) lines_two
           [{| Key_Package := "p"; Key_Test := "U" |}]).
  apply (bool_decide_unpack _). vm_compute. exact I.
Defined.

Example lines_two_calls :
  detail_keys (run_calls (flags_at V0) lines_two
                 [{| Key_Package := "p"; Key_Test := "U" |}])
  = [ {| Key_Package := "p"; Key_Test := "T" |};
      {| Key_Package := "p"; Key_Test := "U" |} ].
Proof. vm_compute. reflexivity. Qed.

(** X15: a summary is never printed for an empty store or for a status that
    was not asked for; every unit listed is a unit of the store with its
    events, under none one whose status is none, and under another status
    one that has an event with the action of that name. *)
Theorem X15_summary_units (flags : Flags) (tests filtered : TestStorage)
    (status : Status) :
  Call_PrintSummary filtered status ∈ run_summaries flags tests →
  status ∈ Flags_Summary flags ∧ status ∈ AllStatuses ∧ filtered ≠ ∅ ∧
  ∀ key es, filtered !! key = Some es →
    tests !! key = Some es ∧
    if bool_decide (status = StatusNone) then Events_Status es = StatusNone
    else has_action status es = true.
Proof.
  intros (_ & status' & Hsum & Hc)%run_summaries_elem_of.
  apply run_summary_elem_of in Hc as (filtered' & [= <- <-] & Hne & Hcase).
  split; [done|].
  destruct Hcase as [[-> ->]|[Hend ->]].
  - split; [unfold AllStatuses; rewrite !elem_of_cons; tauto|]. split; [done|].
    intros key es Hk. rewrite bool_decide_eq_true_2 by done.
    by apply FilterAction_lookup_Status.
  - split.
    { unfold AllStatuses, EndingActions in *.
      rewrite !elem_of_cons, elem_of_nil in Hend. rewrite !elem_of_cons.
      unfold StatusBench, StatusPass, StatusSkip, StatusFail. tauto. }
    split; [done|]. intros key es Hk.
    rewrite bool_decide_eq_false_2.
    + unfold summary_filtered in Hk. destruct (_ && _).
      * apply map_lookup_filter_Some in Hk as [Hk _].
        by apply map_lookup_filter_Some in Hk as [? ?].
      * by apply map_lookup_filter_Some in Hk as [? ?].
    + intros ->. unfold EndingActions in Hend.
      rewrite !elem_of_cons, elem_of_nil in Hend.
      destruct Hend as [H|[H|[H|[H|[]]]]]; discriminate.
Qed.

Lemma X15_witness :
  StatusSkip ∈ Flags_Summary (flags_at V4) ∧ StatusSkip ∈ AllStatuses ∧
  summary_filtered (flags_at V4) skipped ActionSkip ≠ ∅ ∧
  ∀ key es, summary_filtered (flags_at V4) skipped ActionSkip !! key = Some es →
    skipped !! key = Some es ∧
    if bool_decide (StatusSkip = StatusNone) then Events_Status es = StatusNone
    else has_action StatusSkip es = true.
Proof.
  apply (X15_summary_units (flags_at V4) skipped
           (summary_filtered (flags_at V4) skipped ActionSkip) StatusSkip).
  apply run_summaries_elem_of. split; [vm_compute; lia|].
  exists StatusSkip. split; [left|].
  apply Call_in_run_summary_skip. split; [done|].
  intros Hempty.
  assert (summary_filtered (flags_at V4) skipped ActionSkip !! k_rT = Some es_rT)
    as Hk by (vm_compute; reflexivity).
  rewrite Hempty in Hk. by rewrite lookup_empty in Hk.
Defined.

(** ** The renderers *)

Lemma statusColors_is_Some pal s :
  (is_Some (statusColors pal s) ↔ s ∈ AllStatuses) ∧
  (is_Some (statusColorsBold pal s) ↔ s ∈ AllStatuses).
Proof.
  unfold statusColors, statusColorsBold, AllStatuses.
  rewrite !elem_of_cons, elem_of_nil.
  destruct (String.eqb_spec s StatusFail) as [->|?];
    [split; (split; [intros _; pick_disjunct|eauto])|].
  destruct (String.eqb_spec s StatusPass) as [->|?];
    [split; (split; [intros _; pick_disjunct|eauto])|].
  destruct (String.eqb_spec s StatusNone) as [->|?];
    [split; (split; [intros _; pick_disjunct|eauto])|].
  destruct (String.eqb_spec s StatusSkip) as [->|?];
    [split; (split; [intros _; pick_disjunct|eauto])|].
  destruct (String.eqb_spec s StatusBench) as [->|?];
    [split; (split; [intros _; pick_disjunct|eauto])|].
  split; (split; [by intros [? ?]|tauto]).
Qed.

Lemma Events_Status_AllStatuses es : Events_Status es ∈ AllStatuses.
Proof.
  destruct (Events_Status_cases es) as [[-> _]|[H _]].
  - unfold AllStatuses. rewrite !elem_of_cons. tauto.
  - unfold AllStatuses, EndingActions in *.
    rewrite !elem_of_cons, elem_of_nil in H. rewrite !elem_of_cons.
    unfold StatusBench, StatusPass, StatusSkip, StatusFail. tauto.
Qed.

Lemma range_order_length ts tks : range_order ts tks → length tks = size ts.
Proof.
  intros [Hnd Hset]. by rewrite <- size_dom, <- Hset, size_list_to_set.
Qed.



(** X17: whatever the order in which the map is ranged over, [OrderedKeys]
    returns every key of the store exactly once: as many keys as the store
    has units, none twice, none missing and none foreign. *)
Theorem X17_OrderedKeys_each_key_once (ts : TestStorage) (tks : list Key) :
  range_order ts tks →
  NoDup (TestStorage_OrderedKeys tks) ∧
  length (TestStorage_OrderedKeys tks) = size ts ∧
  (∀ key, key ∈ TestStorage_OrderedKeys tks ↔ is_Some (ts !! key)) ∧
  TestStorage_OrderedKeys tks ≡ₚ tks.
Proof.
  intros Hro. pose proof (OrderedKeys_range_order _ _ Hro) as Hro'.
  split; [apply Hro'|]. split; [by apply range_order_length|].
  split; [intros key; by apply range_order_elem_of|].
  apply SliceStable_Permutation.
Qed.

Lemma X17_witness :
  NoDup (TestStorage_OrderedKeys [kA; kT2; kT1]) ∧
  length (TestStorage_OrderedKeys [kA; kT2; kT1]) = size scenario ∧
  (∀ key, key ∈ TestStorage_OrderedKeys [kA; kT2; kT1] ↔ is_Some (scenario !! key)) ∧
  TestStorage_OrderedKeys [kA; kT2; kT1] ≡ₚ [kA; kT2; kT1].
Proof.
  apply (X17_OrderedKeys_each_key_once scenario [kA; kT2; kT1]).
  apply (bool_decide_unpack _). vm_compute. exact I.
Defined.

(** X18: on the store [run] prints the coverage table of, the units with a
    coverage, [PrintCoverage] prints the heading and one line for every
    unit, and every line shows a coverage that is not empty, right-aligned
    in six columns, before the package name. *)
Theorem X18_PrintCoverage_lines (pal : Palette) (tests : TestStorage)
    (tks : list Key) :
  range_order (TestStorage_WithCoverage tests) tks →
  ∃ header,
    TestStorage_PrintCoverage pal (TestStorage_WithCoverage tests) tks =
      header ::
      ((λ key,
          coverColor pal
            (Sprintf_6s_sp (Events_FindCoverage (default [] (tests !! key)))) +:+
          packageColor pal (Key_Package key) +:+ nl)
         <$> TestStorage_OrderedKeys tks) ∧
    length (TestStorage_OrderedKeys tks) = size (TestStorage_WithCoverage tests) ∧
    ∀ key, key ∈ TestStorage_OrderedKeys tks →
           Events_FindCoverage (default [] (tests !! key)) ≠ "".
Proof.
  intros Hro. pose proof (OrderedKeys_range_order _ _ Hro) as Hro'.
  assert (∀ key, key ∈ TestStorage_OrderedKeys tks →
            ∃ es, tests !! key = Some es ∧
                  TestStorage_WithCoverage tests !! key = Some es ∧
                  Key_Test key = "" ∧ Events_FindCoverage es ≠ "") as Hkeys.
  { intros key [es Hes]%(range_order_elem_of _ _ key Hro').
    exists es. pose proof Hes as Hes'. apply WithCoverage_lookup in Hes'. tauto. }
  unfold TestStorage_PrintCoverage. eexists. split; [f_equal|split].
  - clear Hro Hro'. revert Hkeys. generalize (TestStorage_OrderedKeys tks).
    intros keys. induction keys as [|key keys IH]; intros Hkeys; [done|].
    rewrite !fmap_cons. simpl concat.
    destruct (Hkeys key ltac:(left)) as (es & Ht & Hw & Htest & Hcov).
    rewrite IH by (intros k Hk; apply Hkeys; by right).
    unfold PrintCoverage_line. unfold Events in *. rewrite Hw, Ht, Htest. simpl.
    by destruct (Events_FindCoverage es) eqn:Hc.
  - by apply range_order_length.
  - intros key (es & Ht & _ & _ & Hcov)%Hkeys. unfold Events in *.
    by rewrite Ht.
Qed.

Lemma X18_witness :
  ∃ header,
    TestStorage_PrintCoverage plain (TestStorage_WithCoverage covered) [kA] =
      header ::
      ((λ key,
          coverColor plain
            (Sprintf_6s_sp (Events_FindCoverage (default [] (covered !! key)))) +:+
          packageColor plain (Key_Package key) +:+ nl)
         <$> TestStorage_OrderedKeys [kA]) ∧
    length (TestStorage_OrderedKeys [kA]) = size (TestStorage_WithCoverage covered) ∧
    ∀ key, key ∈ TestStorage_OrderedKeys [kA] →
           Events_FindCoverage (default [] (covered !! key)) ≠ "".
Proof.
  apply (X18_PrintCoverage_lines plain covered [kA]).
  apply (bool_decide_unpack _). vm_compute. exact I.
Defined.

Example covered_table :
  TestStorage_PrintCoverage plain (TestStorage_WithCoverage covered) [kA]
  = [ hr_text +:+ " COVR " +:+ hr_text +:+ nl; " 87.3% a" +:+ nl ].
Proof. vm_compute. reflexivity. Qed.

(** ** Flags *)

Lemma Flags_Setup_spec f args :
  Flags_Setup f args =
    if bool_decide ("-v" ∈ args)
    then {| Flags_V := V2;
            Flags_Results := [StatusBench; StatusPass; StatusNone; StatusFail];
            Flags_HideEmptyResults := [StatusBench; StatusPass; StatusNone];
            Flags_Summary := [StatusNone; StatusFail];
            Flags_All := Flags_All f |}
    else if Flags_All f
    then {| Flags_V := Flags_V f; Flags_Results := AllStatuses;
            Flags_HideEmptyResults := []; Flags_Summary := AllStatuses;
            Flags_All := Flags_All f |}
    else f.
Proof.
  unfold Flags_Setup.
  set (f0 := if Flags_All f then _ else f).
  assert (Flags_All f0 = Flags_All f) as Hall
    by (subst f0; by destruct (Flags_All f) eqn:Hf).
  rewrite <- Hall. clearbody f0. clear Hall.
  induction args as [|v args IH] using rev_ind.
  - reflexivity.
  - rewrite foldl_snoc, IH.
    destruct (String.eqb_spec v "-v") as [->|Hv].
    + rewrite (bool_decide_eq_true_2 ("-v" ∈ args ++ ["-v"]))
        by (apply elem_of_app; right; left).
      by case_bool_decide.
    + case_bool_decide as Hin.
      * rewrite bool_decide_eq_true_2; [done|]. apply elem_of_app. by left.
      * rewrite bool_decide_eq_false_2; [done|].
        rewrite elem_of_app, list_elem_of_singleton. intros [?|?]; congruence.
Qed.

(** X19: [Flags.Setup] lets a [-v] among the arguments decide verbosity and
    the three status lists, whatever was configured and whether or not
    everything was asked for; without [-v] it changes the flags only when
    everything was asked for.  Running it again changes nothing, and it
    keeps the status lists within the statuses the program knows. *)
Theorem X19_Setup (f : Flags) (args : list string) :
  ("-v" ∈ args →
     Flags_V (Flags_Setup f args) = V2 ∧
     Flags_Results (Flags_Setup f args) = [StatusBench; StatusPass; StatusNone; StatusFail] ∧
     Flags_HideEmptyResults (Flags_Setup f args) = [StatusBench; StatusPass; StatusNone] ∧
     Flags_Summary (Flags_Setup f args) = [StatusNone; StatusFail]) ∧
  ("-v" ∉ args → Flags_All f = false → Flags_Setup f args = f) ∧
  Flags_Setup (Flags_Setup f args) args = Flags_Setup f args ∧
  (Flags_valid f → Flags_valid (Flags_Setup f args)).
Proof.
  assert (∀ l, (∀ s, s ∈ l → s ∈ AllStatuses) → Forall (λ s, s ∈ AllStatuses) l)
    as Hall by (intros l; apply Forall_forall).
  assert (Forall (λ s, s ∈ AllStatuses) AllStatuses) as HA by (by apply Hall).
  split; [|split; [|split]].
  - intros Hv. rewrite Flags_Setup_spec, bool_decide_eq_true_2 by done. done.
  - intros Hv Hf. rewrite Flags_Setup_spec, bool_decide_eq_false_2 by done.
    by rewrite Hf.
  - rewrite (Flags_Setup_spec (Flags_Setup f args)). rewrite !Flags_Setup_spec.
    case_bool_decide; [done|]. by destruct (Flags_All f) eqn:Hf; simpl; rewrite ?Hf.
  - intros (Hr & Hh & Hs). rewrite Flags_Setup_spec.
    case_bool_decide.
    + unfold Flags_valid. simpl. unfold AllStatuses.
      repeat split; repeat constructor; rewrite !elem_of_cons; tauto.
    + destruct (Flags_All f); [|done]. unfold Flags_valid. simpl.
      split; [done|]. split; [constructor|done].
Qed.

Lemma X19_witness :
  Flags_Setup Flags_Register ["./..."; "-run"; "X"] = Flags_Register ∧
  Flags_valid (Flags_Setup Flags_Register ["-v"; "./..."]).
Proof.
  split.
  - apply (proj1 (proj2 (X19_Setup Flags_Register ["./..."; "-run"; "X"]))).
    + rewrite !elem_of_cons, elem_of_nil. intros [?|[?|[?|[]]]]; discriminate.
    + reflexivity.
  - apply (proj2 (proj2 (proj2 (X19_Setup Flags_Register ["-v"; "./..."])))).
    unfold Flags_valid, Flags_Register, AllStatuses. simpl.
    repeat split; repeat constructor; rewrite !elem_of_cons; tauto.
Defined.

Lemma Statuses_Any_singleton ss v : Statuses_Any ss [v] = true ↔ v ∈ ss.
Proof.
  unfold Statuses_Any. rewrite existsb_exists. split.
  - intros (s & Hin & Hs). apply bool_decide_eq_true in Hs.
    apply list_elem_of_singleton in Hs as ->. by apply list_elem_of_In.
  - intros Hin. exists v. split; [by apply list_elem_of_In|].
    apply bool_decide_eq_true. by apply list_elem_of_singleton.
Qed.




Lemma Split_comma_status s :
  s ∈ AllStatuses →
  Split_comma s = [s] ∧ s ≠ "-" ∧ s ≠ "all" ∧
  ∀ rest, Split_comma (s +:+ "," +:+ rest) = s :: Split_comma rest ∧
          s +:+ "," +:+ rest ≠ "-" ∧ s +:+ "," +:+ rest ≠ "all".
Proof.
  unfold AllStatuses. rewrite !elem_of_cons, elem_of_nil.
  intros [->|[->|[->|[->|[->|[]]]]]]; repeat split; try done;
    simpl; by destruct (Split_comma rest).
Qed.

Lemma Split_comma_Join ss :
  ss ≠ [] → Forall (λ s, s ∈ AllStatuses) ss →
  Split_comma (Join ss ",") = ss ∧ Join ss "," ≠ "-" ∧ Join ss "," ≠ "all".
Proof.
  intros Hne Hvalid. induction Hvalid as [|s ss Hs Hvalid IH]; [done|].
  destruct (Split_comma_status s Hs) as (H1 & H2 & H3 & Hrest).
  destruct ss as [|s' ss]; [done|].
  change (Join (s :: s' :: ss) ",") with (s +:+ "," +:+ Join (s' :: ss) ",").
  destruct (Hrest (Join (s' :: ss) ",")) as (-> & ? & ?).
  destruct IH as (-> & _ & _); done.
Qed.

(** X21: setting a status list from its own text gives the list back:
    [Set] applied to what [String] prints for a non-empty list of known
    statuses sets exactly that list. *)
Theorem X21_String_Set_round_trip (ToLower : string → string) (ss : Statuses) :
  ss ≠ [] →
  Forall (λ s, s ∈ AllStatuses) ss →
  ToLower (Statuses_String ss) = Statuses_String ss →
  Statuses_Set ToLower (Statuses_String ss) = Some ss.
Proof.
  intros Hne Hvalid Hlower. unfold Statuses_Set. rewrite Hlower.
  unfold Statuses_String in *.
  destruct (Split_comma_Join ss Hne Hvalid) as (Hsplit & Hdash & Hall).
  rewrite (proj2 (String.eqb_neq _ _) Hdash), (proj2 (String.eqb_neq _ _) Hall).
  rewrite Hsplit.
  assert (forallb (λ v, Statuses_Any AllStatuses [v]) ss = true) as ->; [|done].
  apply forallb_forall. intros v Hv. apply Statuses_Any_singleton.
  rewrite Forall_forall in Hvalid. apply Hvalid. by apply list_elem_of_In.
Qed.

Lemma X21_witness :
  Statuses_Set ToLower_ascii (Statuses_String [StatusPass; StatusNone; StatusFail])
  = Some [StatusPass; StatusNone; StatusFail].
Proof.
  apply (X21_String_Set_round_trip ToLower_ascii [StatusPass; StatusNone; StatusFail]).
  - done.
  - unfold AllStatuses. repeat constructor; rewrite !elem_of_cons; tauto.
  - vm_compute. reflexivity.
Defined.

(** ** [PrintDetail] *)

Lemma Events_SortByTime_Permutation es : Events_SortByTime es ≡ₚ es.
Proof. apply SliceStable_Permutation. Qed.

Lemma Events_SortByTime_head (es : Events) :
  es ≠ [] → is_Some (head (Events_SortByTime es)).
Proof.
  intros Hne. destruct (Events_SortByTime es) as [|e l] eqn:Hs; [|by eexists].
  pose proof (Events_SortByTime_Permutation es) as Hp. rewrite Hs in Hp.
  symmetry in Hp. by apply Permutation_nil_r in Hp.
Qed.

(** X22: [PrintDetail] never panics.  It prints nothing exactly when the
    sequence is empty, or nothing is left of it after compaction, or no
    output line is left and the status is one whose empty results are
    hidden; otherwise it prints a header line, followed, when output lines
    are left, by an empty line, one line for each of them in arrival order,
    and an empty line. *)
Theorem X22_PrintDetail_shape (pal : Palette) (dc : DetailColors)
    (Time_Format : Z → string) (es : Events) (flags : Flags) :
  ∃ out,
    Events_PrintDetail pal dc Time_Format es flags = Some out ∧
    (out = [] ↔
       es = [] ∨ PrintDetail_events flags es = [] ∨
       (PrintDetail_filteredEvents flags es = [] ∧
        Statuses_Any (Flags_HideEmptyResults flags)
          [Events_Status (Events_SortByTime (PrintDetail_events flags es))] = true)) ∧
    (out ≠ [] →
       ∃ header textColor,
         out = header ::
               match PrintDetail_filteredEvents flags es with
               | [] => []
               | filtered =>
                   [nl] ++ (PrintDetail_line Time_Format flags textColor <$> filtered)
                        ++ [nl]
               end).
Proof.
  unfold Events_PrintDetail.
  change (filter _ (if bool_decide (Flags_V flags ≤ V3)%Z
                    then Events_Compact (Events_Clone es) else Events_Clone es))
    with (PrintDetail_filteredEvents flags es).
  change (if bool_decide (Flags_V flags ≤ V3)%Z
          then Events_Compact (Events_Clone es) else Events_Clone es)
    with (PrintDetail_events flags es).
  destruct es as [|e0 es0] eqn:Hes.
  { simpl. eexists. split; [done|]. split; [|done]. split; [by left|done]. }
  rewrite <- Hes. assert (es ≠ []) as Hne by (by rewrite Hes).
  assert ((length es =? 0) = false) as -> by (by rewrite Hes).
  clear e0 es0 Hes.
  destruct (PrintDetail_events flags es) as [|e1 ev1] eqn:Hev.
  { simpl. eexists. split; [done|]. split; [|done]. split; [by right; left|done]. }
  rewrite <- Hev.
  assert (PrintDetail_events flags es ≠ []) as Hevne by (by rewrite Hev).
  assert ((length (PrintDetail_events flags es) =? 0) = false) as ->
    by (by rewrite Hev).
  clear e1 ev1 Hev.
  set (events := Events_SortByTime (PrintDetail_events flags es)).
  set (filtered := PrintDetail_filteredEvents flags es).
  set (status := Events_Status events).
  destruct ((length filtered =? 0) && Statuses_Any _ [status]) eqn:Hhide.
  { eexists. split; [done|]. split; [|done]. split; [|done]. intros _.
    right; right. apply andb_true_iff in Hhide as [Hlen%Nat.eqb_eq Hany].
    split; [by apply nil_length_inv|done]. }
  destruct (PrintDetail_event pal dc status events) as [event textColor] eqn:Hevent.
  destruct (Events_SortByTime_head _ Hevne) as [e Hhead]. fold events in Hhead.
  assert (is_Some (match event with Some e' => Some e' | None => head events end))
    as [ev' ->] by (destruct event; [by eexists|by rewrite Hhead]).
  destruct (statusColors_is_Some pal status) as [Hc Hb].
  pose proof (Events_Status_AllStatuses events) as Hin. fold status in Hin.
  apply Hc in Hin as [c Hcs]. rewrite Hcs. simpl.
  assert (is_Some (statusColorsBold pal status)) as [b Hbs].
  { apply Hb, Hc. by eexists. }
  rewrite Hbs. simpl.
  eexists. split; [done|]. split.
  - split; [done|]. intros [?|[?|[Hnil Hany]]]; [done|done|].
    rewrite Hnil, Hany in Hhide. done.
  - intros _. eexists _, textColor. f_equal.
    destruct filtered; [done|]. done.
Qed.

(** The scenario of the specification: a test that runs and passes prints
    one line at low verbosity. *)
Example PrintDetail_run_pass :
  Events_PrintDetail plain plain_detail (λ _, "")
    [ev ActionRun "p" "T" 0 ""; ev ActionPass "p" "T" 0.02 ""] (flags_at V0)
  = Some ["=== PASS p.T  (0.02s)" +:+ nl].
Proof. vm_compute. reflexivity. Qed.

Example PrintDetail_fail_with_output :
  Events_PrintDetail plain plain_detail (λ _, "12:00:00")
    [ ev ActionRun "p" "T" 0 "";
      ev ActionOutput "p" "T" 0 ("=== RUN   T" +:+ nl);
      ev ActionOutput "p" "T" 0 ("    x_test.go:7: boom" +:+ nl);
      ev ActionOutput "p" "T" 0 ("--- FAIL: T (0.00s)" +:+ nl);
      ev ActionFail "p" "T" 0 "" ] (flags_at V3)
  = Some [ "=== FAIL p.T" +:+ nl; nl;
           " output 12:00:00     x_test.go:7: boom " +:+ nl;
           nl ].
Proof. vm_compute. reflexivity. Qed.

(** ** Sorting by time *)

Section InsertionSort.
Context {A : Type} (less : A → A → bool).

Lemma Swap_adjacent (pre post : list A) x y :
  Swap (pre ++ y :: x :: post) (S (length pre)) (length pre)
  = pre ++ x :: y :: post.
Proof.
  unfold Swap. induction pre as [|a pre IH]; [done|]. simpl.
  destruct ((pre ++ y :: x :: post) !! S (length pre)),
           ((pre ++ y :: x :: post) !! length pre); simpl; by f_equal.
Qed.

Lemma insertion_inner_spec (pre post : list A) x :
  insertion_inner less 0 (length pre) (pre ++ x :: post)
  = rev (insert_rev less x (rev pre)) ++ post.
Proof.
  revert post. induction pre as [|y pre IH] using rev_ind; intros post; [done|].
  rewrite length_app, rev_app_distr. simpl.
  replace (length pre + 1) with (S (length pre)) by lia.
  cbn [insertion_inner]. rewrite <- app_assoc. simpl.
  assert (Less less (pre ++ y :: x :: post) (S (length pre)) (length pre)
          = less x y) as ->.
  { unfold Less.
    assert ((pre ++ y :: x :: post) !! length pre = Some y) as ->
      by (by apply list_lookup_middle).
    assert ((pre ++ y :: x :: post) !! S (length pre) = Some x) as ->; [|done].
    rewrite (lookup_app_r pre) by lia.
    by replace (S (length pre) - length pre) with 1 by lia. }
  destruct (less x y).
  - rewrite Swap_adjacent, IH. simpl. by rewrite <- app_assoc.
  - simpl. by rewrite rev_involutive, <- !app_assoc.
Qed.

Lemma insert_rev_length x (l : list A) :
  length (insert_rev less x l) = S (length l).
Proof. induction l as [|y l IH]; [done|]. simpl. destruct (less x y); simpl; lia. Qed.

Lemma insertionSort_fold (pre rest : list A) :
  foldl (λ d i, insertion_inner less 0 i d) (pre ++ rest)
        (seq (length pre) (length rest))
  = rev (foldl (λ acc x, insert_rev less x acc) (rev pre) rest).
Proof.
  revert pre. induction rest as [|x rest IH]; intros pre.
  - simpl. by rewrite app_nil_r, rev_involutive.
  - simpl. rewrite insertion_inner_spec.
    specialize (IH (rev (insert_rev less x (rev pre)))).
    rewrite length_rev, insert_rev_length, length_rev, rev_involutive in IH.
    apply IH.
Qed.

(** The loops of [insertionSort_func] over a whole slice insert the
    elements one after the other into the sorted prefix. *)
Lemma insertionSort_spec (data : list A) :
  SliceStable less data
  = rev (foldl (λ acc x, insert_rev less x acc) [] data).
Proof.
  unfold SliceStable, insertionSort.
  pose proof (insertionSort_fold [] data) as H. simpl in H. rewrite <- H.
  destruct data as [|x data]; [done|]. simpl.
  by rewrite Nat.sub_0_r.
Qed.
End InsertionSort.

Section SortByKey.
Context {A : Type} (key : A → Z).
Let less := λ x y : A, (key x <? key y)%Z.

Lemma insert_rev_elem_of x (l : list A) y :
  y ∈ insert_rev less x l ↔ y = x ∨ y ∈ l.
Proof.
  induction l as [|z l IH]; simpl.
  - rewrite list_elem_of_singleton, elem_of_nil. tauto.
  - destruct (less x z); rewrite !elem_of_cons, ?IH; tauto.
Qed.

Lemma insert_rev_sorted x (l : list A) :
  StronglySorted (λ a b, (key b ≤ key a)%Z) l →
  StronglySorted (λ a b, (key b ≤ key a)%Z) (insert_rev less x l).
Proof.
  induction 1 as [|z l Hs IH Hall]; simpl.
  - repeat constructor.
  - unfold less at 1. destruct (Z.ltb_spec (key x) (key z)).
    + constructor; [done|]. apply Forall_forall. intros y Hy.
      apply insert_rev_elem_of in Hy as [->|Hy]; [lia|].
      rewrite Forall_forall in Hall. by apply Hall.
    + constructor; [by constructor|]. constructor; [done|].
      eapply Forall_impl; [exact Hall|]. simpl. intros; lia.
Qed.

Lemma insert_rev_filter x (l : list A) t :
  filter (λ a, key a = t) (insert_rev less x l)
  = filter (λ a, key a = t) (x :: l).
Proof.
  induction l as [|z l IH]; [done|]. simpl.
  unfold less at 1. destruct (Z.ltb_spec (key x) (key z)); [|done].
  rewrite filter_cons, IH, !filter_cons.
  repeat case_decide; try done; lia.
Qed.

Lemma sort_rev_sorted (l acc : list A) :
  StronglySorted (λ a b, (key b ≤ key a)%Z) acc →
  StronglySorted (λ a b, (key b ≤ key a)%Z)
    (foldl (λ acc x, insert_rev less x acc) acc l).
Proof.
  revert acc. induction l as [|x l IH]; intros acc Hacc; [done|].
  simpl. by apply IH, insert_rev_sorted.
Qed.

Lemma sort_rev_filter (l acc : list A) t :
  filter (λ a, key a = t) (foldl (λ acc x, insert_rev less x acc) acc l)
  = rev (filter (λ a, key a = t) l) ++ filter (λ a, key a = t) acc.
Proof.
  revert acc. induction l as [|x l IH]; intros acc; [done|].
  simpl. rewrite IH, insert_rev_filter, !filter_cons.
  case_decide; [|done]. simpl. by rewrite <- app_assoc.
Qed.

Lemma StronglySorted_rev_ge (l : list A) :
  StronglySorted (λ a b, (key b ≤ key a)%Z) l →
  StronglySorted (λ a b, (key a ≤ key b)%Z) (rev l).
Proof.
  induction 1 as [|z l Hs IH Hall]; simpl; [constructor|].
  apply StronglySorted_app_2; [|done|repeat constructor].
  intros x1 x2 Hx1 Hx2. apply list_elem_of_singleton in Hx2 as ->.
  rewrite Forall_forall in Hall. apply Hall.
  apply list_elem_of_In, in_rev in Hx1. by apply list_elem_of_In.
Qed.

Lemma filter_rev (P : A → Prop) `{!∀ x, Decision (P x)} (l : list A) :
  filter P (rev l) = rev (filter P l).
Proof.
  induction l as [|x l IH]; [done|]. simpl.
  rewrite filter_app, IH, filter_cons, filter_cons, filter_nil.
  case_decide; [done|]. by rewrite app_nil_r.
Qed.

(** A stable sort by [key]: what [SliceStable] returns for a comparison of
    keys is sorted, and elements with the same key keep their order. *)
Lemma SliceStable_by_key (l : list A) :
  StronglySorted (λ a b, (key a ≤ key b)%Z) (SliceStable less l) ∧
  ∀ t, filter (λ a, key a = t) (SliceStable less l) = filter (λ a, key a = t) l.
Proof.
  rewrite insertionSort_spec. split.
  - apply StronglySorted_rev_ge, sort_rev_sorted. constructor.
  - intros t. rewrite filter_rev, sort_rev_filter, filter_nil, app_nil_r.
    apply rev_involutive.
Qed.
End SortByKey.

(** X23: [SortByTime] is a stable sort by time: the result holds the same
    events, their times never decrease along it, and events with the same
    time stay in the order in which they arrived. *)
Theorem X23_SortByTime_stable (es : Events) :
  Events_SortByTime es ≡ₚ es ∧
  StronglySorted (λ a b, (Event_Time a ≤ Event_Time b)%Z) (Events_SortByTime es) ∧
  ∀ t, filter (λ e, Event_Time e = t) (Events_SortByTime es)
       = filter (λ e, Event_Time e = t) es.
Proof.
  split; [apply Events_SortByTime_Permutation|].
  apply (SliceStable_by_key Event_Time es).
Qed.

(** ** The package entry of a single package *)

Section InsertRevFacts.
Context {A : Type} (less : A → A → bool).




End InsertRevFacts.



(** ** Counters and the coverage table *)

Lemma size_filter_le (P : Key * Events → Prop) `{!∀ kv, Decision (P kv)}
    (ts : TestStorage) :
  size (filter P ts) ≤ size ts.
Proof. apply map_subseteq_size, map_filter_subseteq. Qed.

Lemma CountTests_mono (ts ts' : TestStorage) :
  ts ⊆ ts' → TestStorage_CountTests ts ≤ TestStorage_CountTests ts'.
Proof.
  intros Hsub. unfold TestStorage_CountTests, TestStorage_FilterPackageResults.
  apply map_subseteq_size. by apply map_filter_subseteq_mono.
Qed.

(** What [CountTests] counts in a store selected by an action: the test
    units (not the package-level ones) that have an event with the action. *)
Lemma CountTests_FindByAction (tests : TestStorage) (a : Action) :
  TestStorage_CountTests (TestStorage_FindByAction tests a)
  = size (filter (λ kv : Key * Events,
                    Key_Test kv.1 ≠ "" ∧ has_action a kv.2 = true) tests).
Proof.
  unfold TestStorage_CountTests, TestStorage_FilterPackageResults,
    TestStorage_FindByAction, has_action.
  f_equal. apply map_eq. intros key. apply option_eq. intros es.
  rewrite !map_lookup_filter_Some. simpl. tauto.
Qed.

(** X25: each counter of the last line counts one kind of unit: pass, fail
    and skip the test units (never a package-level unit) that have an event
    with that action, none the units of any kind whose status is none.  So
    pass, fail and skip never exceed the number of tests, and none and the
    number of units that have an ending action add up to the number of
    units. *)
Theorem X25_counts (tests : TestStorage) :
  countPass (run_counts tests)
    = size (filter (λ kv : Key * Events,
                      Key_Test kv.1 ≠ "" ∧ has_action ActionPass kv.2 = true) tests) ∧
  countFail (run_counts tests)
    = size (filter (λ kv : Key * Events,
                      Key_Test kv.1 ≠ "" ∧ has_action ActionFail kv.2 = true) tests) ∧
  countSkip (run_counts tests)
    = size (filter (λ kv : Key * Events,
                      Key_Test kv.1 ≠ "" ∧ has_action ActionSkip kv.2 = true) tests) ∧
  countNone (run_counts tests)
    = size (filter (λ kv : Key * Events, Events_Status kv.2 = StatusNone) tests) ∧
  countPass (run_counts tests) ≤ TestStorage_CountTests tests ∧
  countFail (run_counts tests) ≤ TestStorage_CountTests tests ∧
  countSkip (run_counts tests) ≤ TestStorage_CountTests tests ∧
  countNone (run_counts tests)
    + size (filter (λ kv : Key * Events, Events_Status kv.2 ≠ StatusNone) tests)
    = size tests.
Proof.
  assert (TestStorage_FilterAction tests EndingActions
          = filter (λ kv : Key * Events, Events_Status kv.2 = StatusNone) tests)
    as Hnone.
  { apply map_eq. intros key. apply option_eq. intros es.
    rewrite FilterAction_lookup_Status, map_lookup_filter_Some. simpl. tauto. }
  split; [apply CountTests_FindByAction|].
  split; [apply CountTests_FindByAction|].
  split; [apply CountTests_FindByAction|].
  split; [simpl; by rewrite Hnone|].
  split; [apply CountTests_mono, map_filter_subseteq|].
  split; [apply CountTests_mono, map_filter_subseteq|].
  split; [apply CountTests_mono, map_filter_subseteq|].
  simpl. rewrite Hnone.
  rewrite <- map_size_disj_union by apply map_disjoint_filter_complement.
  by rewrite map_filter_union_complement.
Qed.

(** X26: the coverage table is printed exactly when [-cover] is among the
    arguments and some named package reports a coverage; the store it is
    printed for holds those packages with their events and no test unit. *)
Theorem X26_run_coverage (argv : list string) (tests filtered : TestStorage) :
  run_coverage argv tests = Some filtered ↔
  "-cover" ∈ argv ∧ filtered = TestStorage_WithCoverage tests ∧
  ∃ key es, tests !! key = Some es ∧ Key_Test key = "" ∧ Key_Package key ≠ "" ∧
            Events_FindCoverage es ≠ "".
Proof.
  unfold run_coverage.
  assert (existsb (λ v, String.eqb v "-cover") argv = true ↔ "-cover" ∈ argv)
    as Hcover.
  { rewrite existsb_exists. split.
    - intros (v & Hin & ->%String.eqb_eq). by apply list_elem_of_In.
    - intros Hin. exists "-cover". split; [by apply list_elem_of_In|done]. }
  assert ((0 <? size (TestStorage_WithCoverage tests)) = true ↔
          ∃ key es, tests !! key = Some es ∧ Key_Test key = "" ∧
                    Key_Package key ≠ "" ∧ Events_FindCoverage es ≠ "") as Hsome.
  { rewrite Nat.ltb_lt. split.
    - intros Hs.
      destruct (map_choose (TestStorage_WithCoverage tests)) as (key & es & Hk).
      { intros Hempty. rewrite Hempty, map_size_empty in Hs. lia. }
      apply WithCoverage_lookup in Hk. eauto.
    - intros (key & es & Hk).
      apply WithCoverage_lookup in Hk.
      destruct (decide (size (TestStorage_WithCoverage tests) = 0)) as [H0|]; [|lia].
      apply map_size_empty_iff in H0. rewrite H0 in Hk.
      by rewrite lookup_empty in Hk. }
  destruct (existsb _ argv) eqn:Hex.
  - destruct (0 <? size (TestStorage_WithCoverage tests)) eqn:Hw.
    + assert ((0 <? size tests) = true) as ->.
      { apply Nat.ltb_lt. apply Nat.ltb_lt in Hw.
        pose proof (size_filter_le
          (λ kv, ¬ (Key_Test kv.1 ≠ "" ∨ Key_Package kv.1 = "") ∧
                 Events_FindCoverage kv.2 ≠ "") tests) as Hle.
        unfold TestStorage_WithCoverage in Hw. lia. }
      simpl. split.
      * intros [= <-]. split; [by apply Hcover|]. split; [done|]. by apply Hsome.
      * by intros (_ & -> & _).
    + rewrite andb_true_r.
      split; [by destruct (0 <? size tests)|].
      intros (_ & _ & Hex'). apply Hsome in Hex'. congruence.
  - rewrite andb_false_r. split; [done|]. intros [Hin _].
    apply Hcover in Hin. congruence.
Qed.

(** ** Checks of the further helpers on small inputs *)

Example RuneCount_ascii : RuneCountInString "output" = 6.
Proof. reflexivity. Qed.
Example RuneCount_two_byte : RuneCountInString (bytes [104; 195; 169; 33]) = 3.
Proof. vm_compute. reflexivity. Qed.
Example RuneCount_truncated : RuneCountInString (bytes [226; 130]) = 2.
Proof. vm_compute. reflexivity. Qed.
Example RuneCount_three_byte : RuneCountInString (bytes [226; 130; 172; 255]) = 2.
Proof. vm_compute. reflexivity. Qed.
Example Sprintf_7s_pass : Sprintf_7s "pass" = "   pass".
Proof. reflexivity. Qed.
Example Split_comma_ex : Split_comma "fail,,none" = ["fail"; ""; "none"].
Proof. reflexivity. Qed.
Example Set_rejects_empty : Statuses_Set ToLower_ascii "" = None.
Proof. reflexivity. Qed.
Example Set_all : Statuses_Set ToLower_ascii "ALL" = Some AllStatuses.
Proof. vm_compute. reflexivity. Qed.

(** ** The status [PrintDetail] shows *)

Lemma sort_rev_sorted_input {A} (key : A → Z) (l acc : list A) :
  StronglySorted (λ a b, (key a ≤ key b)%Z) (rev acc ++ l) →
  foldl (λ acc x, insert_rev (λ x y, (key x <? key y)%Z) x acc) acc l
  = rev l ++ acc.
Proof.
  revert acc. induction l as [|x l IH]; intros acc Hs; [done|].
  simpl.
  assert (insert_rev (λ x y, (key x <? key y)%Z) x acc = x :: acc) as ->.
  { destruct acc as [|y acc]; [done|]. simpl.
    apply StronglySorted_app in Hs as (Hle & _ & _).
    assert (key y ≤ key x)%Z as Hyx.
    { apply Hle; [|left]. simpl. apply elem_of_app. right. left. }
    by destruct (Z.ltb_spec (key x) (key y)); [lia|]. }
  rewrite IH.
  - by rewrite <- app_assoc.
  - simpl. by rewrite <- app_assoc.
Qed.

Lemma Events_SortByTime_sorted_input (es : Events) :
  StronglySorted (λ a b, (Event_Time a ≤ Event_Time b)%Z) es →
  Events_SortByTime es = es.
Proof.
  intros Hs. unfold Events_SortByTime. rewrite insertionSort_spec.
  rewrite (sort_rev_sorted_input Event_Time es []) by done.
  by rewrite app_nil_r, rev_involutive.
Qed.

Lemma StronglySorted_filter {A} (R : A → A → Prop) (P : A → Prop)
    `{!∀ x, Decision (P x)} (l : list A) :
  StronglySorted R l → StronglySorted R (filter P l).
Proof.
  induction 1 as [|x l Hs IH Hall]; [constructor|].
  rewrite filter_cons. case_decide; [|done].
  constructor; [done|]. apply Forall_forall. intros y Hy.
  apply list_elem_of_filter in Hy as [_ Hy].
  rewrite Forall_forall in Hall. by apply Hall.
Qed.

(** X27: for a sequence whose times never decrease, the usual case of
    events that arrive in time order, sorting by time changes nothing and
    the status [PrintDetail] shows, derived after compaction and sorting, is
    the status of the unit in the store, at every verbosity. *)
Theorem X27_PrintDetail_status (flags : Flags) (es : Events) :
  StronglySorted (λ a b, (Event_Time a ≤ Event_Time b)%Z) es →
  Events_SortByTime es = es ∧
  Events_Status (Events_SortByTime (PrintDetail_events flags es))
  = Events_Status es.
Proof.
  intros Hs. split; [by apply Events_SortByTime_sorted_input|].
  unfold PrintDetail_events. case_bool_decide.
  - rewrite Events_SortByTime_sorted_input
      by (unfold Events_Compact; by apply StronglySorted_filter).
    apply Events_Status_filter. intros e He. by apply Compact_keeps_ending.
  - by rewrite Events_SortByTime_sorted_input.
Qed.

Lemma X27_witness :
  let es := [ev ActionRun "p" "T" 0 ""; ev ActionPass "p" "T" 0.02 ""] in
  Events_SortByTime es = es ∧
  Events_Status (Events_SortByTime (PrintDetail_events (flags_at V0) es))
  = Events_Status es.
Proof.
  intros es. apply (X27_PrintDetail_status (flags_at V0) es).
  repeat constructor; simpl; lia.
Defined.

(** When times and arrival disagree, [PrintDetail] can show another status
    than the one derived from the store. *)
Example PrintDetail_status_differs :
  let es := [ {| Event_Time := 2; Event_Action := ActionPass; Event_Package := "p";
                 Event_Test := "T"; Event_Elapsed := 0; Event_Output := "" |};
              {| Event_Time := 1; Event_Action := ActionFail; Event_Package := "p";
                 Event_Test := "T"; Event_Elapsed := 0; Event_Output := "" |} ] in
  Events_Status es = StatusPass ∧
  Events_PrintDetail plain plain_detail (λ _, "") es (flags_at V0)
  = Some ["=== FAIL p.T" +:+ nl].
Proof. split; vm_compute; reflexivity. Qed.
